(** * AutoFilm: the Alist2Strm tree synchronisation engine

    A shallow embedding of
      - src/app/extensions/exts.py             (extension tables),
      - src/app/modules/alist/v3/path.py       (AlistPath),
      - src/app/modules/alist/v3/client.py     (AlistClient.iter_path),
      - src/app/modules/alist2strm/alist2strm.py (Alist2Strm),
    together with the properties of the filter, the path mapper, the
    task pipeline and the reconciler.

    Conventions.
      - Python [str] is [string]; [str.lower] acts on the letters A-Z.
      - [pathlib.Path] values are records of an anchor flag and a list of
        components; the operations used by the program ([/], [name],
        [parent], [suffix], [with_suffix]) follow PurePosixPath, except
        that a leading [//] is read as [/].
      - Timestamps ([st_mtime], [datetime.timestamp()]) are integers of
        an arbitrary fixed resolution; only their order is used.
      - The local file system is a finite map from paths to nodes;
        [exists], [stat] and the listings depend on that map alone, and
        two paths name the same file only if they are equal.
      - A cancelled task leaves no trace of the operation it was
        waiting for.
      - Exceptions are values of [exn]; fallible code returns [result]. *)

From Stdlib Require Import ZArith Ascii String.
From stdpp Require Import base decidable option list strings gmap sets.

Local Open Scope string_scope.
Local Open Scope Z_scope.

(** ** Exceptions and results *)

Inductive exn :=
| OSError
| ValueError
| RuntimeError
| AttributeError
| FileNotFoundError
| NotADirectoryError.

Inductive result (A : Type) :=
| Ok (a : A)
| Raise (e : exn).
Arguments Ok {A} a.
Arguments Raise {A} e.

(** [except OSError] also catches its subclasses. *)
Definition is_OSError (e : exn) : bool :=
  match e with
  | OSError | FileNotFoundError | NotADirectoryError => true
  | _ => false
  end.

#[global] Instance exn_eq_dec : EqDecision exn.
Proof. solve_decision. Defined.

#[global] Instance result_eq_dec {A} `{EqDecision A} : EqDecision (result A).
Proof. solve_decision. Defined.

(** ** Python string operations used by the program *)

Module Str.

(** [c.lower()] on one character. *)
Definition lower_ascii (c : ascii) : ascii :=
  let n := nat_of_ascii c in
  if (Nat.leb 65 n && Nat.leb n 90)%bool then ascii_of_nat (n + 32) else c.

(** [s.lower()] *)
Fixpoint lower (s : string) : string :=
  match s with
  | EmptyString => EmptyString
  | String c s' => String (lower_ascii c) (lower s')
  end.

(** [s.split(sep)] for a one-character separator: never empty. *)
Fixpoint split (sep : ascii) (s : string) : list string :=
  match s with
  | EmptyString => [EmptyString]
  | String c s' =>
      if Ascii.eqb c sep then EmptyString :: split sep s'
      else match split sep s' with
           | [] => [String c EmptyString]
           | w :: ws => String c w :: ws
           end
  end.

(** [l[-1]] on the result of a split. *)
Definition last_piece (l : list string) : string := List.last l EmptyString.

(** [s.startswith(p)] *)
Definition startswith (p s : string) : bool := String.prefix p s.

(** [s.replace(old, "", 1)]: the leftmost occurrence of [old] is removed.
    With [old = ""] Python inserts the empty replacement in front, so
    the string is unchanged. *)
Fixpoint remove_first (old s : string) : string :=
  if String.prefix old s then
    String.substring (String.length old) (String.length s - String.length old) s
  else match s with
       | EmptyString => EmptyString
       | String c s' => String c (remove_first old s')
       end.

(** [s[1:]] *)
Definition tail (s : string) : string :=
  match s with
  | EmptyString => EmptyString
  | String _ s' => s'
  end.

(** [s.rstrip("/")] *)
Fixpoint rstrip_slash (s : string) : string :=
  match s with
  | EmptyString => EmptyString
  | String c s' =>
      match rstrip_slash s' with
      | EmptyString => if Ascii.eqb c "/" then EmptyString else String c EmptyString
      | r => String c r
      end
  end.

(** [s.rfind(".")]: [None] stands for -1. *)
Fixpoint rfind_dot (s : string) : option nat :=
  match s with
  | EmptyString => None
  | String c s' =>
      match rfind_dot s' with
      | Some i => Some (S i)
      | None => if Ascii.eqb c "." then Some 0%nat else None
      end
  end.

End Str.

(** ** pathlib.PurePosixPath *)

Record Path := mkPath { anchored : bool; parts : list string }.

#[global] Instance Path_eq_dec : EqDecision Path.
Proof. solve_decision. Defined.

#[global] Instance Path_countable : Countable Path.
Proof.
  refine (inj_countable' (fun p => (anchored p, parts p))
                         (fun q => mkPath q.1 q.2) _).
  by intros [].
Defined.

Module PurePath.

Definition keep_part (c : string) : bool :=
  negb (String.eqb c "" || String.eqb c ".").

(** [Path(s)]: the components between separators, without the empty
    ones and without ["."]. *)
Definition of_string (s : string) : Path :=
  {| anchored := Str.startswith "/" s;
     parts := List.filter keep_part (Str.split "/" s) |}.

(** [p / s] *)
Definition div (p : Path) (s : string) : Path :=
  let q := of_string s in
  if anchored q then q
  else {| anchored := anchored p; parts := parts p ++ parts q |}.

(** [p.name] *)
Definition name (p : Path) : string := List.last (parts p) "".

(** [p.parent]: the anchor and the empty relative path are their own
    parents. *)
Definition parent (p : Path) : Path :=
  {| anchored := anchored p; parts := List.removelast (parts p) |}.

(** The suffix of a final component: from the last dot on, when that
    dot is neither the first nor the last character. *)
Definition name_suffix (n : string) : string :=
  match Str.rfind_dot n with
  | Some i =>
      if (Nat.ltb 0 i && Nat.ltb i (String.length n - 1))%bool
      then String.substring i (String.length n - i) n
      else ""
  | None => ""
  end.

(** [p.suffix] *)
Definition suffix (p : Path) : string := name_suffix (name p).

(** The final component without its suffix. *)
Definition name_stem (n : string) : string :=
  String.substring 0 (String.length n - String.length (name_suffix n)) n.

(** [p.stem] *)
Definition stem (p : Path) : string := name_stem (name p).

(** [p.with_suffix(sfx)] for a suffix that is a dot followed by
    letters; a path with an empty name raises ValueError. *)
Definition with_suffix (p : Path) (sfx : string) : result Path :=
  if String.eqb (name p) "" then Raise ValueError
  else Ok {| anchored := anchored p;
             parts := List.removelast (parts p) ++ [name_stem (name p) ++ sfx] |}.

End PurePath.

Notation "p // s" := (PurePath.div p s) (at level 40, left associativity).

(** ** src/app/extensions/exts.py

    The frozensets are lists; only membership is ever used. *)

Definition VIDEO_EXTS : list string :=
  [".mp4"; ".mkv"; ".flv"; ".avi"; ".wmv"; ".ts"; ".rmvb"; ".webm"; ".mpg";
   ".mpeg"; ".mov"; ".m2ts"; ".vob"; ".3gp"; ".ogv"; ".divx"; ".asf"; ".m4v";
   ".mp3"; ".aac"; ".flac"; ".wav"; ".ogg"; ".m4a"; ".wma"; ".ac3"; ".opus";
   ".alac"; ".mka"].

Definition SUBTITLE_EXTS : list string :=
  [".ass"; ".srt"; ".ssa"; ".sub"; ".vtt"; ".smi"; ".idx"].

Definition IMAGE_EXTS : list string :=
  [".png"; ".jpg"; ".jpeg"; ".gif"; ".bmp"; ".tiff"; ".webp"].

Definition NFO_EXTS : list string := [".nfo"].

(** [x in exts] *)
Definition mem (x : string) (exts : list string) : bool := bool_decide (x ∈ exts).

(** ** External library behaviour

    [datetime.fromisoformat(s).timestamp()] ([None]: ValueError),
    [URLUtils.encode] and [re.compile(pattern).search(s)] (as a truth
    value) are not part of the modelled sources; they are taken as given
    functions. *)

Record Lib := {
  fromisoformat : string -> option Z;
  url_encode : string -> string;
  re_search : string -> string -> bool
}.

(** ** src/app/modules/alist/v3/path.py *)

Record AlistPath := {
  server_url : string;
  base_path : string;
  file_path : string;
  name : string;
  size : Z;
  is_dir : bool;
  modified : string;
  sign : string;
  raw_url : string;
  full_path : string
}.

Module AlistPathM.

Definition abs_path (p : AlistPath) : string :=
  Str.rstrip_slash (base_path p) ++ file_path p.

Definition download_url (lib : Lib) (p : AlistPath) : string :=
  if String.eqb (sign p) ""
  then url_encode lib (server_url p ++ "/d" ++ abs_path p)
  else url_encode lib (server_url p ++ "/d" ++ abs_path p ++ "?sign=" ++ sign p).

Definition suffix (p : AlistPath) : string :=
  if is_dir p then ""
  else "." ++ Str.last_piece (Str.split "." (name p)).

(** [__parse_timestamp]: [datetime.fromisoformat] raises ValueError on
    a string it cannot parse. *)
Definition parse_timestamp (lib : Lib) (time_str : string) : result Z :=
  match fromisoformat lib time_str with
  | Some t => Ok t
  | None => Raise ValueError
  end.

Definition modified_timestamp (lib : Lib) (p : AlistPath) : result Z :=
  parse_timestamp lib (modified p).

End AlistPathM.

(** ** The local file system *)

Inductive kind := KFile | KDir.

Record node := { n_kind : kind; n_mtime : Z; n_size : Z }.

#[global] Instance kind_eq_dec : EqDecision kind.
Proof. solve_decision. Defined.

#[global] Instance node_eq_dec : EqDecision node.
Proof. solve_decision. Defined.

Abbreviation FS := (gmap Path node).

Module Fs.

(** [p.exists()] *)
Definition exists_ (fs : FS) (p : Path) : bool := bool_decide (is_Some (fs !! p)).

(** [p.is_file()] *)
Definition is_file (fs : FS) (p : Path) : bool :=
  match fs !! p with
  | Some n => bool_decide (n_kind n = KFile)
  | None => false
  end.

(** [p.is_dir()] *)
Definition is_dir (fs : FS) (p : Path) : bool :=
  match fs !! p with
  | Some n => bool_decide (n_kind n = KDir)
  | None => false
  end.

(** [q] is an entry of the directory [d]. *)
Definition child_of (d q : Path) : Prop :=
  parts q ≠ [] ∧ PurePath.parent q = d.

#[global] Instance child_of_dec d q : Decision (child_of d q).
Proof. unfold child_of. apply _. Defined.

(** [q] lies strictly below [d]. *)
Definition below (d q : Path) : Prop :=
  anchored q = anchored d ∧ parts d `prefix_of` parts q ∧ parts q ≠ parts d.

#[global] Instance below_dec d q : Decision (below d q).
Proof. unfold below. apply _. Defined.

Definition children (fs : FS) (d : Path) : list Path :=
  filter (child_of d) (elements (dom fs)).

Definition descendants (fs : FS) (d : Path) : list Path :=
  filter (below d) (elements (dom fs)).

(** [d.iterdir()] *)
Definition iterdir (fs : FS) (d : Path) : result (list Path) :=
  match fs !! d with
  | None => Raise FileNotFoundError
  | Some n => if bool_decide (n_kind n = KDir) then Ok (children fs d)
              else Raise NotADirectoryError
  end.

(** [d.rglob("*")]: nothing when [d] is not a directory. *)
Definition rglob (fs : FS) (d : Path) : list Path :=
  if is_dir fs d then descendants fs d else [].

(** [p.unlink()] *)
Definition unlink (fs : FS) (p : Path) : result FS :=
  match fs !! p with
  | None => Raise FileNotFoundError
  | Some n => if bool_decide (n_kind n = KFile) then Ok (delete p fs)
              else Raise OSError
  end.

(** [d.rmdir()]: the directory must be empty, and the anchor or the
    current directory cannot be removed. *)
Definition rmdir (fs : FS) (d : Path) : result FS :=
  match fs !! d with
  | None => Raise FileNotFoundError
  | Some n =>
      if bool_decide (n_kind n = KDir) then
        match children fs d, parts d with
        | [], _ :: _ => Ok (delete d fs)
        | _, _ => Raise OSError
        end
      else Raise NotADirectoryError
  end.

End Fs.

(** ** src/app/modules/alist2strm/alist2strm.py: the Alist2Strm object *)

Module Alist2Strm.

(** The arguments of [__init__] that the engine uses. *)
Record Params := {
  p_source_dir : string;
  p_target_dir : string;
  p_flatten_mode : bool;
  p_subtitle : bool;
  p_image : bool;
  p_nfo : bool;
  p_mode : string;
  p_overwrite : bool;
  p_other_ext : string;
  p_max_workers : nat;
  p_max_downloaders : nat;
  p_sync_server : bool;
  p_sync_ignore : string
}.

(** The fields that [__init__] sets and nothing changes afterwards. *)
Record Config := {
  source_dir : string;
  target_dir : Path;
  flatten_mode : bool;
  download_exts : list string;
  process_file_exts : list string;
  overwrite : bool;
  max_workers : nat;
  max_downloaders : nat;
  sync_server : bool;
  sync_ignore_pattern : option string;
  init_mode : string
}.

(** The fields that [run] and [filter] assign.  [self.full_path] does
    not exist until the filter has stored one. *)
Record Self := {
  mode : string;
  self_full_path : option string;
  processed_local_paths : gset Path
}.

Definition nonempty (s : string) : bool := negb (String.eqb s "").

Definition init (a : Params) : Config :=
  let aux := negb (p_flatten_mode a) in
  let subtitle := (p_subtitle a && aux)%bool in
  let image := (p_image a && aux)%bool in
  let nfo := (p_nfo a && aux)%bool in
  let download_exts :=
    ((if subtitle then SUBTITLE_EXTS else [])
     ++ (if image then IMAGE_EXTS else [])
     ++ (if nfo then NFO_EXTS else [])
     ++ (if nonempty (p_other_ext a)
         then Str.split "," (Str.lower (p_other_ext a)) else []))%list in
  {| source_dir := p_source_dir a;
     target_dir := PurePath.of_string (p_target_dir a);
     flatten_mode := p_flatten_mode a;
     download_exts := download_exts;
     process_file_exts := (VIDEO_EXTS ++ download_exts)%list;
     overwrite := p_overwrite a;
     max_workers := p_max_workers a;
     max_downloaders := p_max_downloaders a;
     sync_server := p_sync_server a;
     sync_ignore_pattern :=
       if nonempty (p_sync_ignore a) then Some (p_sync_ignore a) else None;
     init_mode := p_mode a |}.

(** [__get_local_path], up to the suffix test. *)
Definition local_base (cfg : Config) (path : AlistPath) (full_path : string) : Path :=
  if flatten_mode cfg then target_dir cfg // name path
  else
    let relative_path :=
      if nonempty full_path then Str.remove_first (source_dir cfg) full_path
      else name path in
    let relative_path :=
      if Str.startswith "/" relative_path then Str.tail relative_path
      else relative_path in
    target_dir cfg // relative_path.

(** [__get_local_path] *)
Definition get_local_path (cfg : Config) (path : AlistPath) (full_path : string)
  : result Path :=
  let local_path := local_base cfg path full_path in
  if mem (Str.lower (AlistPathM.suffix path)) VIDEO_EXTS
  then PurePath.with_suffix local_path ".strm"
  else Ok local_path.

(** [local_path.stat()] of an existing path. *)
Definition stat (fs : FS) (p : Path) : result node :=
  match fs !! p with
  | Some n => Ok n
  | None => Raise FileNotFoundError
  end.

(** The closure [filter] of [run].  It reads the local file system and
    assigns [self.full_path] and [self.processed_local_paths]; the
    result is the returned truth value or the exception that leaves the
    closure, together with the object's fields afterwards. *)
Definition filter (lib : Lib) (cfg : Config) (fs : FS) (self : Self)
    (path : AlistPath) (full_path : string) : result bool * Self :=
  if is_dir path then (Ok false, self)
  else if negb (mem (Str.lower (AlistPathM.suffix path)) (process_file_exts cfg))
  then (Ok false, self)
  else
    match get_local_path cfg path full_path with
    | Raise e => if is_OSError e then (Ok false, self) else (Raise e, self)
    | Ok local_path =>
        let self :=
          {| mode := mode self;
             self_full_path := Some full_path;
             processed_local_paths := {[local_path]} ∪ processed_local_paths self |} in
        if (negb (overwrite cfg) && Fs.exists_ fs local_path)%bool then
          if mem (AlistPathM.suffix path) (download_exts cfg) then
            match stat fs local_path with
            | Raise e => (Raise e, self)
            | Ok local_path_stat =>
                match AlistPathM.modified_timestamp lib path with
                | Raise e => (Raise e, self)
                | Ok ts =>
                    if n_mtime local_path_stat <? ts then (Ok true, self)
                    else if n_size local_path_stat <? size path then (Ok true, self)
                    else (Ok false, self)
                end
            end
          else (Ok false, self)
        else (Ok true, self)
    end.

(** *** [__cleanup_local_files] *)

(** [self.sync_ignore_pattern and self.sync_ignore_pattern.search(name)] *)
Definition ignored (lib : Lib) (cfg : Config) (file_path : Path) : bool :=
  match sync_ignore_pattern cfg with
  | Some pattern => re_search lib pattern (PurePath.name file_path)
  | None => false
  end.

(** The list comprehensions over [iterdir()] and [rglob("*")]:
    [iterdir] raises when the target directory is missing. *)
Definition all_local_files (cfg : Config) (fs : FS) : result (list Path) :=
  if flatten_mode cfg then
    match Fs.iterdir fs (target_dir cfg) with
    | Raise e => Raise e
    | Ok entries => Ok (List.filter (Fs.is_file fs) entries)
    end
  else Ok (List.filter (Fs.is_file fs) (Fs.rglob fs (target_dir cfg))).

(** [set(all_local_files) - self.processed_local_paths] *)
Definition files_to_delete (all : list Path) (processed : gset Path) : gset Path :=
  list_to_set all ∖ processed.

(** The [while parent_dir != self.target_dir] loop.  Each round removes
    one component, and [rmdir] refuses a path without components, so
    [S (length (parts parent_dir))] rounds are never exceeded.  The
    second component is the exception that ended the loop, if any. *)
Fixpoint remove_empty_dirs (target : Path) (rounds : nat) (fs : FS)
    (parent_dir : Path) : FS * option exn :=
  match rounds with
  | O => (fs, None)
  | S rounds' =>
      if decide (parent_dir = target) then (fs, None)
      else match Fs.iterdir fs parent_dir with
           | Raise e => (fs, Some e)
           | Ok (_ :: _) => (fs, None)
           | Ok [] =>
               match Fs.rmdir fs parent_dir with
               | Raise e => (fs, Some e)
               | Ok fs' =>
                   remove_empty_dirs target rounds' fs' (PurePath.parent parent_dir)
               end
           end
  end.

(** One round of [for file_path in files_to_delete]; an exception is
    caught by [except Exception] and ends the round only. *)
Definition cleanup_file (lib : Lib) (cfg : Config) (fs : FS) (file_path : Path)
  : FS * option exn :=
  if ignored lib cfg file_path then (fs, None)
  else if Fs.exists_ fs file_path then
    match Fs.unlink fs file_path with
    | Raise e => (fs, Some e)
    | Ok fs' =>
        let parent_dir := PurePath.parent file_path in
        remove_empty_dirs (target_dir cfg) (S (length (parts parent_dir))) fs' parent_dir
    end
  else (fs, None).

Fixpoint cleanup_loop (lib : Lib) (cfg : Config) (order : list Path) (fs : FS) : FS :=
  match order with
  | [] => fs
  | file_path :: rest => cleanup_loop lib cfg rest (cleanup_file lib cfg fs file_path).1
  end.

(** Python iterates a set in an order of its own: [order] is any
    enumeration of the set without repetition. *)
Definition iterates (s : gset Path) (order : list Path) : Prop :=
  order ≡ₚ elements s.

#[global] Instance iterates_dec s order : Decision (iterates s order).
Proof. unfold iterates. apply _. Defined.

(** [__cleanup_local_files], for the order in which the set
    [files_to_delete] is iterated. *)
Definition cleanup_local_files (lib : Lib) (cfg : Config) (processed : gset Path)
    (order : list Path) (fs : FS) : result FS :=
  match all_local_files cfg fs with
  | Raise e => Raise e
  | Ok all => Ok (cleanup_loop lib cfg order fs)
  end.

(** The set the loop of [__cleanup_local_files] runs over, when the
    listing succeeds. *)
Definition deletion_set (cfg : Config) (processed : gset Path) (fs : FS) : gset Path :=
  match all_local_files cfg fs with
  | Raise _ => ∅
  | Ok all => files_to_delete all processed
  end.

(** *** The remote tree and the traversal of [AlistClient.iter_path]

    A remote entry is what [async_api_fs_list] returned for it, what
    [async_api_fs_get] returns for its full path ([None]: RuntimeError)
    and, for a directory, what [async_api_fs_list] returns for its full
    path ([None]: RuntimeError). *)

#[local] Unset Elimination Schemes.
Inductive rnode :=
| RNode (entry : AlistPath) (detail : option AlistPath) (listing : option (list rnode)).
#[local] Set Elimination Schemes.

(** What the coroutine of [run] does between two suspensions, in the
    order in which the [async for] over [iter_path] makes it happen. *)
Inductive op :=
| OpList (dir_path : string) (ok : bool)
    (* await self.async_api_fs_list(dir_path) *)
| OpSleep
    (* await sleep(wait_time) *)
| OpFilter (path : AlistPath) (full_path : string) (detail : option AlistPath).
    (* if filter(path, full_path): yield path or its detail;
       the body of the async for then creates the task *)

Definition child_full_path (dir_path name : string) : string :=
  if String.eqb dir_path "/" then "/" ++ name else dir_path ++ "/" ++ name.

Fixpoint iter_entry (dir_path : string) (n : rnode) : list op :=
  match n with
  | RNode path detail listing =>
      let full_path := child_full_path dir_path (name path) in
      (OpSleep ::
       (if is_dir path then
          match listing with
          | None => [OpList full_path false]
          | Some entries =>
              OpList full_path true :: flat_map (iter_entry full_path) entries
          end
        else []) ++ [OpFilter path full_path detail])%list
  end.

Definition iter_path (dir_path : string) (listing : option (list rnode)) : list op :=
  match listing with
  | None => [OpList dir_path false]
  | Some entries => OpList dir_path true :: flat_map (iter_entry dir_path) entries
  end.

(** *** Tasks of [__file_processer] *)

Inductive tstate :=
| Created
    (* created by tg.create_task, first step still in the ready queue *)
| AwaitMkdir (local_path : Path) (content : string)
    (* await to_thread(local_path.parent.mkdir, ...) *)
| AwaitWrite (local_path : Path) (content : string)
    (* async with async_open(local_path, "w"): await file.write(content) *)
| WaitDownloader (local_path : Path)
    (* blocked in async with self.__max_downloaders *)
| Downloading (local_path : Path)
    (* holds a download slot: await RequestUtils.download(...) *)
| Done
| Failed (e : exn)
| Cancelled.

(** [t_path] is the argument of [__file_processer]; [t_listed] and
    [t_full] record the arguments of the filter call that accepted the
    entry (they are not read by the task). *)
Record task := {
  t_path : AlistPath;
  t_listed : AlistPath;
  t_full : string;
  t_state : tstate
}.

Inductive main :=
| Acquire (ops : list op)
    (* before async with self.__max_workers, TaskGroup() *)
| Running (ops : list op)
    (* inside the task group; [Running []] waits for the tasks *)
| Returned
| Raised (e : exn).

Inductive event :=
| EvDetail (full_path : string)
| EvDownload (url : string) (local_path : Path)
| EvWrite (local_path : Path) (content : string).

Record state := {
  st_self : Self;
  st_fs : FS;
  st_workers : nat;
  st_downloaders : nat;
  st_tasks : list task;
  st_main : main;
  st_events : list event
}.

Definition set_self (x : Self) (s : state) : state :=
  {| st_self := x; st_fs := st_fs s; st_workers := st_workers s;
     st_downloaders := st_downloaders s; st_tasks := st_tasks s;
     st_main := st_main s; st_events := st_events s |}.

Definition set_fs (x : FS) (s : state) : state :=
  {| st_self := st_self s; st_fs := x; st_workers := st_workers s;
     st_downloaders := st_downloaders s; st_tasks := st_tasks s;
     st_main := st_main s; st_events := st_events s |}.

Definition set_workers (x : nat) (s : state) : state :=
  {| st_self := st_self s; st_fs := st_fs s; st_workers := x;
     st_downloaders := st_downloaders s; st_tasks := st_tasks s;
     st_main := st_main s; st_events := st_events s |}.

Definition set_downloaders (x : nat) (s : state) : state :=
  {| st_self := st_self s; st_fs := st_fs s; st_workers := st_workers s;
     st_downloaders := x; st_tasks := st_tasks s;
     st_main := st_main s; st_events := st_events s |}.

Definition set_tasks (x : list task) (s : state) : state :=
  {| st_self := st_self s; st_fs := st_fs s; st_workers := st_workers s;
     st_downloaders := st_downloaders s; st_tasks := x;
     st_main := st_main s; st_events := st_events s |}.

Definition set_main (x : main) (s : state) : state :=
  {| st_self := st_self s; st_fs := st_fs s; st_workers := st_workers s;
     st_downloaders := st_downloaders s; st_tasks := st_tasks s;
     st_main := x; st_events := st_events s |}.

Definition emit (ev : event) (s : state) : state :=
  {| st_self := st_self s; st_fs := st_fs s; st_workers := st_workers s;
     st_downloaders := st_downloaders s; st_tasks := st_tasks s;
     st_main := st_main s; st_events := (st_events s ++ [ev])%list |}.

Definition set_tstate (x : tstate) (t : task) : task :=
  {| t_path := t_path t; t_listed := t_listed t; t_full := t_full t; t_state := x |}.

Definition unfinished (x : tstate) : bool :=
  match x with
  | Done | Failed _ | Cancelled => false
  | _ => true
  end.

Definition is_created (x : tstate) : bool :=
  match x with Created => true | _ => false end.

Definition holds_slot (x : tstate) : bool :=
  match x with Downloading _ => true | _ => false end.

Definition is_done (x : tstate) : bool :=
  match x with Done => true | _ => false end.

(** Tasks of the group that have not finished. *)
Definition in_flight (s : state) : nat :=
  length (List.filter (fun t => unfinished (t_state t)) (st_tasks s)).

(** Tasks inside [async with self.__max_downloaders]. *)
Definition downloading (s : state) : nat :=
  length (List.filter (fun t => holds_slot (t_state t)) (st_tasks s)).

Definition ready_queue_empty (s : state) : bool :=
  forallb (fun t => negb (is_created (t_state t))) (st_tasks s).

Definition cancel (t : task) : task :=
  if unfinished (t_state t) then set_tstate Cancelled t else t.

(** An exception reaches the task group: the unfinished tasks are
    cancelled (a cancelled download leaves its [async with] and gives
    the slot back), the group re-raises, [async with self.__max_workers]
    is left, and [run] raises. *)
Definition abort (e : exn) (s : state) : state :=
  {| st_self := st_self s;
     st_fs := st_fs s;
     st_workers := S (st_workers s);
     st_downloaders := st_downloaders s + downloading s;
     st_tasks := map cancel (st_tasks s);
     st_main := Raised e;
     st_events := st_events s |}.

(** [self.mode] after the check at the start of [run]. *)
Definition normal_mode (m : string) : string :=
  if mem m ["AlistURL"; "RawURL"; "AlistPath"] then m else "AlistURL".

Definition is_detail (self : Self) : bool := String.eqb (mode self) "RawURL".

(** The state in which [run] starts on a fresh object. *)
Definition start (cfg : Config) (fs : FS) (remote : option (list rnode)) : state :=
  {| st_self := {| mode := normal_mode (init_mode cfg);
                   self_full_path := None;
                   processed_local_paths := ∅ |};
     st_fs := fs;
     st_workers := max_workers cfg;
     st_downloaders := max_downloaders cfg;
     st_tasks := [];
     st_main := Acquire (iter_path (source_dir cfg) remote);
     st_events := [] |}.

(** The content of a pointer file.  [AlistPath] declares no attribute
    [path], so [path.path] raises AttributeError. *)
Definition content (lib : Lib) (mode : string) (path : AlistPath) : result string :=
  if String.eqb mode "AlistURL" then Ok (AlistPathM.download_url lib path)
  else if String.eqb mode "RawURL" then Ok (raw_url path)
  else if String.eqb mode "AlistPath" then Raise AttributeError
  else Raise ValueError.

Definition dir_node (mtime : Z) : node :=
  {| n_kind := KDir; n_mtime := mtime; n_size := 0 |}.

Definition file_node (mtime size : Z) : node :=
  {| n_kind := KFile; n_mtime := mtime; n_size := size |}.

(** [d.mkdir(parents=True, exist_ok=True)]: the components [todo] below
    the existing [done] are created in turn. *)
Fixpoint mkdir_from (fs : FS) (anch : bool) (done todo : list string) (mtime : Z)
  : result FS :=
  match todo with
  | [] => Ok fs
  | c :: todo' =>
      let q := mkPath anch (done ++ [c]) in
      match fs !! q with
      | Some n =>
          if bool_decide (n_kind n = KDir)
          then mkdir_from fs anch (done ++ [c]) todo' mtime
          else Raise NotADirectoryError
      | None => mkdir_from (<[q := dir_node mtime]> fs) anch (done ++ [c]) todo' mtime
      end
  end.

Definition mkdir_parents (fs : FS) (d : Path) (mtime : Z) : result FS :=
  mkdir_from fs (anchored d) [] (parts d) mtime.

(** The outcome of the operation a task was waiting for: it succeeded
    (with the time and, for a download, the size of what was written),
    or it raised. *)
Inductive io :=
| IoOk (mtime size : Z)
| IoFail (e : exn).

Inductive label :=
| LMain
| LTask (i : nat) (r : io)
| LFinish (order : list Path).

Definition new_task (path listed : AlistPath) (full_path : string) : task :=
  {| t_path := path; t_listed := listed; t_full := full_path; t_state := Created |}.

(** The coroutine of [run] takes its next step.  A step that starts with
    a suspension ([await sleep], [await async_api_fs_list]) resumes
    after the tasks already in the ready queue have taken their first
    step: the event loop runs its queue in order, and the resumption is
    queued behind them. *)
Definition exec_main (lib : Lib) (cfg : Config) (s : state) : option state :=
  match st_main s with
  | Acquire ops =>
      match st_workers s with
      | O => None
      | S n => Some (set_main (Running ops) (set_workers n s))
      end
  | Running (OpSleep :: ops) =>
      if ready_queue_empty s then Some (set_main (Running ops) s) else None
  | Running (OpList _ ok :: ops) =>
      if ready_queue_empty s then
        if ok then Some (set_main (Running ops) s)
        else Some (abort RuntimeError s)
      else None
  | Running (OpFilter path full_path detail :: ops) =>
      let '(r, self) := filter lib cfg (st_fs s) (st_self s) path full_path in
      let s := set_self self s in
      match r with
      | Raise e => Some (abort e s)
      | Ok false => Some (set_main (Running ops) s)
      | Ok true =>
          if is_detail self then
            match detail with
            | None => Some (abort RuntimeError (emit (EvDetail full_path) s))
            | Some d =>
                Some (set_main (Running ops)
                        (set_tasks (st_tasks s ++ [new_task d path full_path])
                           (emit (EvDetail full_path) s)))
            end
          else
            Some (set_main (Running ops)
                    (set_tasks (st_tasks s ++ [new_task path path full_path]) s))
      end
  | _ => None
  end.

(** Task [i] fails with [e]: the exception is not handled in
    [__file_processer], so it reaches the task group. *)
Definition fail_task (i : nat) (t : task) (e : exn) (s : state) : state :=
  abort e (set_tasks (<[i := set_tstate (Failed e) t]> (st_tasks s)) s).

Definition move_task (i : nat) (t : task) (x : tstate) (s : state) : state :=
  set_tasks (<[i := set_tstate x t]> (st_tasks s)) s.

(** [async with self.__max_downloaders] is entered when a slot is free. *)
Definition enter_download (lib : Lib) (i : nat) (t : task) (local_path : Path)
    (s : state) : state :=
  match st_downloaders s with
  | O => move_task i t (WaitDownloader local_path) s
  | S n =>
      emit (EvDownload (AlistPathM.download_url lib (t_path t)) local_path)
        (move_task i t (Downloading local_path) (set_downloaders n s))
  end.

(** Task [i] takes its next step. *)
Definition exec_task (lib : Lib) (cfg : Config) (i : nat) (r : io) (s : state)
  : option state :=
  match st_main s, st_tasks s !! i with
  | Running _, Some t =>
      match t_state t with
      | Created =>
          match self_full_path (st_self s) with
          | None => Some (fail_task i t AttributeError s)
          | Some full_path =>
              match get_local_path cfg (t_path t) full_path with
              | Raise e => Some (fail_task i t e s)
              | Ok local_path =>
                  match content lib (mode (st_self s)) (t_path t) with
                  | Raise e => Some (fail_task i t e s)
                  | Ok c => Some (move_task i t (AwaitMkdir local_path c) s)
                  end
              end
          end
      | AwaitMkdir local_path c =>
          match r with
          | IoFail e => Some (fail_task i t e s)
          | IoOk mtime _ =>
              match mkdir_parents (st_fs s) (PurePath.parent local_path) mtime with
              | Raise e => Some (fail_task i t e s)
              | Ok fs =>
                  let s := set_fs fs s in
                  if String.eqb (PurePath.suffix local_path) ".strm"
                  then Some (move_task i t (AwaitWrite local_path c) s)
                  else Some (enter_download lib i t local_path s)
              end
          end
      | AwaitWrite local_path c =>
          match r with
          | IoFail e => Some (fail_task i t e s)
          | IoOk mtime _ =>
              if Fs.is_dir (st_fs s) local_path then Some (fail_task i t OSError s)
              else
                Some (emit (EvWrite local_path c)
                        (move_task i t Done
                           (set_fs (<[local_path :=
                                        file_node mtime (Z.of_nat (String.length c))]>
                                      (st_fs s)) s)))
          end
      | WaitDownloader local_path =>
          match st_downloaders s with
          | O => None
          | S _ => Some (enter_download lib i t local_path s)
          end
      | Downloading local_path =>
          let s := set_downloaders (S (st_downloaders s)) s in
          match r with
          | IoFail e => Some (fail_task i t e s)
          | IoOk mtime sz =>
              if Fs.is_dir (st_fs s) local_path then Some (fail_task i t OSError s)
              else
                Some (move_task i t Done
                        (set_fs (<[local_path := file_node mtime sz]> (st_fs s)) s))
          end
      | _ => None
      end
  | _, _ => None
  end.

(** The task group is left once every task is done; then
    [async with self.__max_workers] is left and, with [sync_server], the
    local files are cleaned up.  [order] is the order in which the loop
    of [__cleanup_local_files] iterates its set. *)
Definition exec_finish (lib : Lib) (cfg : Config) (order : list Path) (s : state)
  : option state :=
  match st_main s with
  | Running [] =>
      if forallb (fun t => is_done (t_state t)) (st_tasks s) then
        let s := set_workers (S (st_workers s)) s in
        if sync_server cfg then
          let processed := processed_local_paths (st_self s) in
          if bool_decide (iterates (deletion_set cfg processed (st_fs s)) order) then
            match cleanup_local_files lib cfg processed order (st_fs s) with
            | Raise e => Some (set_main (Raised e) s)
            | Ok fs => Some (set_main Returned (set_fs fs s))
            end
          else None
        else Some (set_main Returned s)
      else None
  | _ => None
  end.

Definition exec (lib : Lib) (cfg : Config) (l : label) (s : state) : option state :=
  match l with
  | LMain => exec_main lib cfg s
  | LTask i r => exec_task lib cfg i r s
  | LFinish order => exec_finish lib cfg order s
  end.

Fixpoint execs (lib : Lib) (cfg : Config) (ls : list label) (s : state)
  : option state :=
  match ls with
  | [] => Some s
  | l :: ls' =>
      match exec lib cfg l s with
      | Some s' => execs lib cfg ls' s'
      | None => None
      end
  end.

(** One step of the event loop, and the states a run can reach. *)
Definition step (lib : Lib) (cfg : Config) (s s' : state) : Prop :=
  ∃ l, exec lib cfg l s = Some s'.

Definition reachable (lib : Lib) (cfg : Config) (s0 s : state) : Prop :=
  ∃ ls, execs lib cfg ls s0 = Some s.

End Alist2Strm.

(** ** Concrete runs

    A server with the directory [/media], mirrored below [/out]. *)

Module Scenario.
Import Alist2Strm.

(** A library in which only the empty string fails to parse as a
    time, URL encoding changes nothing and a pattern matches the
    names equal to it. *)
Definition lib0 : Lib :=
  {| fromisoformat := fun s => if String.eqb s "" then None else Some 1000;
     url_encode := fun s => s;
     re_search := fun pattern s => String.eqb pattern s |}.

Definition params (other_ext : string) (workers : nat) : Params :=
  {| p_source_dir := "/media"; p_target_dir := "/out";
     p_flatten_mode := false;
     p_subtitle := true; p_image := false; p_nfo := false;
     p_mode := "AlistURL"; p_overwrite := false;
     p_other_ext := other_ext;
     p_max_workers := workers; p_max_downloaders := 1;
     p_sync_server := true; p_sync_ignore := "" |}.

Definition cfg0 : Config := init (params "" 1).

(** A file [/media/n] of 500 bytes. *)
Definition entry (n modified : string) : AlistPath :=
  {| server_url := "http://host"; base_path := "/";
     file_path := "/media/" ++ n; name := n; size := 500; is_dir := false;
     modified := modified; sign := ""; raw_url := "";
     full_path := "/media/" ++ n |}.

Definition file (n : string) : rnode :=
  RNode (entry n "2024-01-01T00:00:00") None None.

Definition out : Path := mkPath true ["out"].
Definition out_file (n : string) : Path := mkPath true ["out"; n].

Definition self0 : Self :=
  {| mode := "AlistURL"; self_full_path := None; processed_local_paths := ∅ |}.

(** [/out] alone. *)
Definition fs_empty : FS := {[ out := dir_node 0 ]}.

(** [/out] with one file of 200 bytes written at time 2000. *)
Definition fs_with (n : string) : FS :=
  {[ out := dir_node 0; out_file n := file_node 2000 200 ]}.

(** [/out/keep.strm], [/out/old/a/gone.strm] and [/out/old/b/]. *)
Definition fs_tree : FS :=
  {[ out := dir_node 0;
     out_file "keep.strm" := file_node 1 1;
     mkPath true ["out"; "old"] := dir_node 0;
     mkPath true ["out"; "old"; "a"] := dir_node 0;
     mkPath true ["out"; "old"; "a"; "gone.strm"] := file_node 1 1;
     mkPath true ["out"; "old"; "b"] := dir_node 0 ]}.

Definition gone : Path := mkPath true ["out"; "old"; "a"; "gone.strm"].

(** The run is about to filter one entry. *)
Definition at_filter (fs : FS) (path : AlistPath) : state :=
  {| st_self := self0; st_fs := fs; st_workers := 0; st_downloaders := 1;
     st_tasks := [];
     st_main := Running [OpFilter path ("/media/" ++ name path) None];
     st_events := [] |}.

(** The coroutine of [run] takes [n] steps in a row. *)
Definition mains (n : nat) : list label := replicate n LMain.

(** [/media] holds the two files [n1] and [n2]. *)
Definition remote2 (n1 n2 : string) : option (list rnode) :=
  Some [file n1; file n2].

(** Both entries are dispatched and both tasks take their first step:
    [run] enters the group and lists [/media]; after the sleep the
    first entry is filtered and its task created; the task starts at
    the next sleep; the same for the second entry. *)
Definition dispatch2 : list label :=
  (mains 4 ++ [LTask 0 (IoOk 0 0)] ++ mains 2 ++ [LTask 1 (IoOk 0 0)])%list.


(** The state after [dispatch2] and the first mkdir on [a.srt] and
    [b.mp4]: the first task downloads, the second waits for its
    directory. *)
Definition one_downloading : state :=
  {| st_self := {| mode := "AlistURL"; self_full_path := Some "/media/b.mp4";
                   processed_local_paths := {[out_file "a.srt"; out_file "b.strm"]} |};
     st_fs := fs_empty;
     st_workers := 0; st_downloaders := 0;
     st_tasks :=
       [ {| t_path := entry "a.srt" "2024-01-01T00:00:00";
            t_listed := entry "a.srt" "2024-01-01T00:00:00";
            t_full := "/media/a.srt";
            t_state := Downloading (out_file "a.srt") |};
         {| t_path := entry "b.mp4" "2024-01-01T00:00:00";
            t_listed := entry "b.mp4" "2024-01-01T00:00:00";
            t_full := "/media/b.mp4";
            t_state := AwaitMkdir (out_file "b.strm") "http://host/d/media/b.mp4" |} ];
     st_main := Running [];
     st_events := [EvDownload "http://host/d/media/a.srt" (out_file "a.srt")] |}.

(** The state after the first four steps of [run] on [a.mp4] and
    [a.mkv]: the task of [a.mp4] is created, [a.mkv] is still to come. *)
Definition one_created : state :=
  {| st_self := {| mode := "AlistURL"; self_full_path := Some "/media/a.mp4";
                   processed_local_paths := {[out_file "a.strm"]} |};
     st_fs := fs_empty; st_workers := 0; st_downloaders := 1;
     st_tasks := [ new_task (entry "a.mp4" "2024-01-01T00:00:00")
                     (entry "a.mp4" "2024-01-01T00:00:00") "/media/a.mp4" ];
     st_main := Running
       [OpSleep; OpFilter (entry "a.mkv" "2024-01-01T00:00:00") "/media/a.mkv" None];
     st_events := [] |}.

(** Or the directories of both tasks are made. *)
Definition both_mkdir : list label :=
  (dispatch2 ++ [LTask 0 (IoOk 10 0); LTask 1 (IoOk 10 0)])%list.

End Scenario.

(** ** The path mapper as the design describes it

    Stated from the spec, section 4.1: in flatten mode the target root
    joined with the name of the entry; otherwise the target root joined
    with the full remote path without the remote root in front and
    without a leading separator. *)

Module SpecPathMapper.
Import Alist2Strm.

Definition strip_prefix (root full : string) : string :=
  if String.prefix root full
  then String.substring (String.length root)
         (String.length full - String.length root) full
  else full.

Definition strip_leading_separator (s : string) : string :=
  match s with
  | String c s' => if Ascii.eqb c "/" then s' else s
  | EmptyString => EmptyString
  end.

Definition map_base (cfg : Config) (path : AlistPath) (full : string) : Path :=
  if flatten_mode cfg then target_dir cfg // name path
  else target_dir cfg
         // strip_leading_separator (strip_prefix (source_dir cfg) full).

End SpecPathMapper.

(** ** Well-formed local trees

    Below the target directory every path has a directory for parent. *)

Definition well_formed (target : Path) (fs : FS) : Prop :=
  ∀ q, is_Some (fs !! q) → Fs.below target q →
       Fs.is_dir fs (PurePath.parent q) = true.

(** No directory below [target] that is empty in [fs] had an entry in
    [fs0]. *)
Definition no_new_empty_dir (target : Path) (fs0 fs : FS) : Prop :=
  ∀ d, Fs.below target d → Fs.is_dir fs d = true →
       Fs.children fs d = [] → Fs.children fs0 d = [].

(** The same, computed over the paths of the tree. *)
Definition well_formed_check (target : Path) (fs : FS) : bool :=
  forallb (fun q => if decide (Fs.below target q)
                    then Fs.is_dir fs (PurePath.parent q) else true)
          (elements (dom fs)).

(** ** Notions used to state the properties of a run *)

Module Run.
Import Alist2Strm.

(** The local path a started task writes to. *)
Definition writes_to (x : tstate) : option Path :=
  match x with
  | AwaitMkdir lp _ | AwaitWrite lp _ | WaitDownloader lp | Downloading lp => Some lp
  | _ => None
  end.


(** The download slots a task holds. *)
Definition slots (x : tstate) : nat := if holds_slot x then 1 else 0.

(** The states a task of [__file_processer] passes through. *)
Inductive task_next (cfg : Config) (self : Self) (t : task) : tstate → Prop :=
| next_start full lp c :
    t_state t = Created →
    self_full_path self = Some full →
    get_local_path cfg (t_path t) full = Ok lp →
    task_next cfg self t (AwaitMkdir lp c)
| next_write lp c :
    t_state t = AwaitMkdir lp c →
    PurePath.suffix lp = ".strm" →
    task_next cfg self t (AwaitWrite lp c)
| next_wait lp c :
    t_state t = AwaitMkdir lp c →
    PurePath.suffix lp ≠ ".strm" →
    task_next cfg self t (WaitDownloader lp)
| next_download lp c :
    t_state t = AwaitMkdir lp c →
    PurePath.suffix lp ≠ ".strm" →
    task_next cfg self t (Downloading lp)
| next_slot lp :
    t_state t = WaitDownloader lp →
    task_next cfg self t (Downloading lp)
| next_written lp c :
    t_state t = AwaitWrite lp c →
    task_next cfg self t Done
| next_downloaded lp :
    t_state t = Downloading lp →
    task_next cfg self t Done.

(** [async_api_fs_get] describes the entry that was listed: same name,
    same kind. *)
Definition detail_agrees (o : op) : bool :=
  match o with
  | OpFilter path _ (Some d) =>
      String.eqb (name d) (name path) && Bool.eqb (is_dir d) (is_dir path)
  | _ => true
  end.

(** Every filter call on a file comes directly after a suspension of
    the coroutine (calls on directories in between change nothing). *)
Fixpoint guarded (resumed : bool) (ops : list op) : bool :=
  match ops with
  | [] => true
  | OpSleep :: ops' => guarded true ops'
  | OpList _ _ :: ops' => guarded true ops'
  | OpFilter path _ _ :: ops' =>
      if is_dir path then guarded resumed ops'
      else resumed && guarded false ops'
  end.

(** The full path of a filter call lies below the remote root. *)
Definition under_root (src : string) (o : op) : Prop :=
  match o with
  | OpFilter _ full _ => full ≠ "" ∧ String.prefix src full = true
  | _ => True
  end.


(** The status of the tasks that goes with the status of [run]. *)
Definition settled (x : tstate) : Prop :=
  match x with Failed _ | Cancelled => False | _ => True end.

Definition tasks_match_main (s : state) : Prop :=
  match st_main s with
  | Acquire _ => st_tasks s = []
  | Running _ => Forall (fun t => settled (t_state t)) (st_tasks s)
  | Returned => Forall (fun t => t_state t = Done) (st_tasks s)
  | Raised _ => Forall (fun t => unfinished (t_state t) = false) (st_tasks s)
  end.

End Run.

Module Pipeline.
Import Alist2Strm Run.

(** The task belongs to an entry whose local path the filter has
    recorded, and it writes to that path and to no other. *)
Definition task_ok (cfg : Config) (self : Self) (t : task) : Prop :=
  ∃ lp, get_local_path cfg (t_listed t) (t_full t) = Ok lp ∧
        get_local_path cfg (t_path t) (t_full t) = Ok lp ∧
        lp ∈ processed_local_paths self ∧
        (∀ lp', writes_to (t_state t) = Some lp' → lp' = lp) ∧
        (t_state t = Created → self_full_path self = Some (t_full t)).

(** The remaining traversal, for a run that has not ended. *)
Definition ops_ok (s : state) (ops : list op) : Prop :=
  forallb detail_agrees ops = true ∧
  ∃ resumed, guarded resumed ops = true ∧
             (resumed = true → ready_queue_empty s = true).

Definition pipeline_inv (cfg : Config) (s : state) : Prop :=
  Forall (task_ok cfg (st_self s)) (st_tasks s) ∧
  match st_main s with
  | Acquire ops | Running ops => ops_ok s ops
  | _ => True
  end.

End Pipeline.

(** ** src/app/modules/alist/v3/client.py: the AlistClient object

    A response of the server is the status code of the HTTP exchange
    and, from the JSON body, the field [code] and the part of [data]
    the caller reads. *)

Module AlistClient.

(** [self.__token]: the token and the time it expires, -1 for never. *)
Record Token := { tk_token : string; tk_expires : Z }.

(** [self.__username] and [self.___password] exist only when
    [__init__] went through the branch that stores them. *)
Record Client := {
  cl_url : string;
  cl_credentials : option (string * string);
  cl_token : Token;
  cl_base_path : string;
  cl_id : Z
}.

(** The body of [/api/auth/login]. *)
Record LoginResponse := { lg_status : Z; lg_code : Z; lg_token : string }.

(** The body of [/api/me]: [data] may lack a key. *)
Record MeResponse := {
  me_status : Z; me_code : Z;
  me_base_path : option string; me_id : option Z
}.

(** One object of [data.content] of [/api/fs/list], or [data] of
    [/api/fs/get]. *)
Record Item := {
  it_name : string; it_size : Z; it_is_dir : bool;
  it_modified : string; it_sign : string; it_raw_url : string
}.

Record ListResponse := {
  ls_status : Z; ls_code : Z; ls_total : Z; ls_content : list Item
}.

Record GetResponse := { gt_status : Z; gt_code : Z; gt_data : Item }.

Definition set_token (t : Token) (c : Client) : Client :=
  {| cl_url := cl_url c; cl_credentials := cl_credentials c; cl_token := t;
     cl_base_path := cl_base_path c; cl_id := cl_id c |}.

Definition set_me (base_path : string) (id : Z) (c : Client) : Client :=
  {| cl_url := cl_url c; cl_credentials := cl_credentials c;
     cl_token := cl_token c; cl_base_path := base_path; cl_id := id |}.

(** [api_auth_login]: reading [self.username] raises AttributeError when
    the attribute was never set. *)
Definition api_auth_login (c : Client) (resp : LoginResponse) : result string :=
  match cl_credentials c with
  | None => Raise AttributeError
  | Some _ =>
      if negb (lg_status resp =? 200) then Raise RuntimeError
      else if negb (lg_code resp =? 200) then Raise RuntimeError
      else Ok (lg_token resp)
  end.

(** The property [__get_token] at the time [now_stamp]; [resp] is what
    the server answers if it is asked to log in. *)
Definition get_token (c : Client) (now_stamp : Z) (resp : LoginResponse)
  : result string * Client :=
  if tk_expires (cl_token c) =? -1 then (Ok (tk_token (cl_token c)), c)
  else if tk_expires (cl_token c) <? now_stamp then
    match api_auth_login c resp with
    | Raise e => (Raise e, c)
    | Ok t =>
        (Ok t,
         set_token {| tk_token := t;
                      tk_expires := now_stamp + 2 * 24 * 60 * 60 - 5 * 60 |} c)
    end
  else (Ok (tk_token (cl_token c)), c).

(** [sync_api_me] *)
Definition sync_api_me (c : Client) (now_stamp : Z) (login : LoginResponse)
    (resp : MeResponse) : result unit * Client :=
  match get_token c now_stamp login with
  | (Raise e, c) => (Raise e, c)
  | (Ok _, c) =>
      if negb (me_status resp =? 200) then (Raise RuntimeError, c)
      else if negb (me_code resp =? 200) then (Raise RuntimeError, c)
      else match me_base_path resp with
           | None => (Raise RuntimeError, c)
           | Some base_path =>
               match me_id resp with
               | None => (Raise RuntimeError, set_me base_path (cl_id c) c)
               | Some id => (Ok tt, set_me base_path id c)
               end
           end
  end.

(** [__init__]: the object when the constructor returns, or the
    exception that leaves it. *)
Definition init (url username password token : string) (now_stamp : Z)
    (login : LoginResponse) (me : MeResponse) : result Client :=
  if ((String.eqb username "" || String.eqb password "") && String.eqb token "")%bool
  then Raise ValueError
  else
    let url := if negb (Str.startswith "http" url) then "https://" ++ url else url in
    let c := {| cl_url := Str.rstrip_slash url;
                cl_credentials := None;
                cl_token := {| tk_token := ""; tk_expires := 0 |};
                cl_base_path := ""; cl_id := 0 |} in
    let c' :=
      if negb (String.eqb token "") then
        Ok (set_token {| tk_token := token; tk_expires := -1 |} c)
      else if (negb (String.eqb username "") && negb (String.eqb password ""))%bool then
        Ok {| cl_url := cl_url c; cl_credentials := Some (username, password);
              cl_token := cl_token c; cl_base_path := cl_base_path c;
              cl_id := cl_id c |}
      else Raise ValueError in
    match c' with
    | Raise e => Raise e
    | Ok c =>
        match sync_api_me c now_stamp login me with
        | (Raise e, _) => Raise e
        | (Ok _, c) => Ok c
        end
    end.

(** The [AlistPath] built from an item found at [path]. *)
Definition alist_path (c : Client) (path : string) (it : Item) : AlistPath :=
  {| server_url := cl_url c; base_path := cl_base_path c;
     file_path := path; name := it_name it; size := it_size it;
     is_dir := it_is_dir it; modified := it_modified it; sign := it_sign it;
     raw_url := it_raw_url it; full_path := path |}.

(** [dir_path + "/" + name if dir_path != "/" else "/" + name] *)
Definition join_path (dir_path name : string) : string :=
  if negb (String.eqb dir_path "/") then dir_path ++ "/" ++ name else "/" ++ name.

(** [async_api_fs_list] *)
Definition async_api_fs_list (c : Client) (now_stamp : Z) (login : LoginResponse)
    (resp : ListResponse) (dir_path : string) : result (list AlistPath) * Client :=
  match get_token c now_stamp login with
  | (Raise e, c) => (Raise e, c)
  | (Ok _, c) =>
      if negb (ls_status resp =? 200) then (Raise RuntimeError, c)
      else if negb (ls_code resp =? 200) then (Raise RuntimeError, c)
      else if ls_total resp =? 0 then (Ok [], c)
      else (Ok (map (fun it => alist_path c (join_path dir_path (it_name it)) it)
                    (ls_content resp)), c)
  end.

(** [async_api_fs_get] *)
Definition async_api_fs_get (c : Client) (now_stamp : Z) (login : LoginResponse)
    (resp : GetResponse) (path : string) : result AlistPath * Client :=
  match get_token c now_stamp login with
  | (Raise e, c) => (Raise e, c)
  | (Ok _, c) =>
      if negb (gt_status resp =? 200) then (Raise RuntimeError, c)
      else if negb (gt_code resp =? 200) then (Raise RuntimeError, c)
      else (Ok (alist_path c path (gt_data resp)), c)
  end.

(** The token never expires, or the credentials to renew it are
    there. *)
Definition can_renew (c : Client) : Prop :=
  tk_expires (cl_token c) = -1 ∨ is_Some (cl_credentials c).

End AlistClient.

(** ** Concrete clients *)

Module ClientScenario.

Definition login_ok : AlistClient.LoginResponse :=
  {| AlistClient.lg_status := 200; AlistClient.lg_code := 200;
     AlistClient.lg_token := "fresh" |}.

Definition login_refused : AlistClient.LoginResponse :=
  {| AlistClient.lg_status := 200; AlistClient.lg_code := 403;
     AlistClient.lg_token := "" |}.

Definition me_ok : AlistClient.MeResponse :=
  {| AlistClient.me_status := 200; AlistClient.me_code := 200;
     AlistClient.me_base_path := Some "/"; AlistClient.me_id := Some 1 |}.

(** A client that logged in with a user name and a password at time
    1000. *)
Definition with_password : AlistClient.Client :=
  {| AlistClient.cl_url := "https://host";
     AlistClient.cl_credentials := Some ("user", "secret");
     AlistClient.cl_token :=
       {| AlistClient.tk_token := "old"; AlistClient.tk_expires := 1000 |};
     AlistClient.cl_base_path := "/"; AlistClient.cl_id := 1 |}.

(** A client built from a permanent token. *)
Definition with_token : AlistClient.Client :=
  {| AlistClient.cl_url := "https://host";
     AlistClient.cl_credentials := None;
     AlistClient.cl_token :=
       {| AlistClient.tk_token := "permanent"; AlistClient.tk_expires := -1 |};
     AlistClient.cl_base_path := "/"; AlistClient.cl_id := 1 |}.

Definition item (n : string) (dir : bool) : AlistClient.Item :=
  {| AlistClient.it_name := n; AlistClient.it_size := 500;
     AlistClient.it_is_dir := dir; AlistClient.it_modified := "2024-01-01T00:00:00";
     AlistClient.it_sign := ""; AlistClient.it_raw_url := "" |}.

Definition listing (total : Z) : AlistClient.ListResponse :=
  {| AlistClient.ls_status := 200; AlistClient.ls_code := 200;
     AlistClient.ls_total := total;
     AlistClient.ls_content := [item "a.mp4" false; item "tv" true] |}.

End ClientScenario.

(** ** Further notions about a run *)

Module RunFacts.
Import Alist2Strm Run.




Definition ended (s : state) : bool :=
  match st_main s with
  | Returned | Raised _ => true
  | _ => false
  end.

(** A pointer file is written, anything else is downloaded. *)
Definition suffix_ok (x : tstate) : Prop :=
  match x with
  | AwaitWrite lp _ => PurePath.suffix lp = ".strm"
  | WaitDownloader lp | Downloading lp => PurePath.suffix lp ≠ ".strm"
  | _ => True
  end.

Definition is_media (path : AlistPath) : bool :=
  mem (Str.lower (AlistPathM.suffix path)) VIDEO_EXTS.

Definition is_ev_detail (ev : event) : bool :=
  match ev with EvDetail _ => true | _ => false end.


End RunFacts.

(** Runs on [/media] with [a.srt] and [b.mp4], for the witnesses. *)

Module ModeScenario.
Import Alist2Strm Scenario.




(** Mode [AlistURL], after both entries are dispatched and [a.srt] is
    downloaded (500 bytes, at time 20). *)
Definition first_downloaded : list label :=
  (dispatch2 ++ [LTask 0 (IoOk 10 0); LTask 0 (IoOk 20 500)])%list.

Definition one_done : state :=
  {| st_self := {| mode := "AlistURL"; self_full_path := Some "/media/b.mp4";
                   processed_local_paths := {[out_file "a.srt"; out_file "b.strm"]} |};
     st_fs := <[out_file "a.srt" := file_node 20 500]> fs_empty;
     st_workers := 0; st_downloaders := 1;
     st_tasks :=
       [ {| t_path := entry "a.srt" "2024-01-01T00:00:00";
            t_listed := entry "a.srt" "2024-01-01T00:00:00";
            t_full := "/media/a.srt";
            t_state := Done |};
         {| t_path := entry "b.mp4" "2024-01-01T00:00:00";
            t_listed := entry "b.mp4" "2024-01-01T00:00:00";
            t_full := "/media/b.mp4";
            t_state := AwaitMkdir (out_file "b.strm") "http://host/d/media/b.mp4" |} ];
     st_main := Running [];
     st_events := [EvDownload "http://host/d/media/a.srt" (out_file "a.srt")] |}.

End ModeScenario.

(** * Properties *)

Import Alist2Strm.

(** ** Strings *)

Lemma mem_true x l : mem x l = true ↔ x ∈ l.
Proof. unfold mem. apply bool_decide_eq_true. Qed.

Lemma mem_false x l : mem x l = false ↔ x ∉ l.
Proof. unfold mem. apply bool_decide_eq_false. Qed.

Lemma lower_ascii_idemp c : Str.lower_ascii (Str.lower_ascii c) = Str.lower_ascii c.
Proof. destruct c as [[] [] [] [] [] [] [] []]; reflexivity. Qed.

Lemma lower_idemp s : Str.lower (Str.lower s) = Str.lower s.
Proof. induction s as [|c s IH]; simpl; [done|]. by rewrite lower_ascii_idemp, IH. Qed.






Lemma process_of_video a x :
  mem x VIDEO_EXTS = true → mem x (process_file_exts (init a)) = true.
Proof.
  rewrite !mem_true. intros H.
  change (process_file_exts (init a)) with (VIDEO_EXTS ++ download_exts (init a))%list.
  rewrite elem_of_app. by left.
Qed.

(** ** The entry filter *)

Lemma filter_dir lib cfg fs self path full :
  is_dir path = true → filter lib cfg fs self path full = (Ok false, self).
Proof. intros H. unfold filter. by rewrite H. Qed.

(** The set of processed paths only grows in a filter call. *)
Lemma filter_processed_mono lib cfg fs self path full :
  processed_local_paths self ⊆
  processed_local_paths (filter lib cfg fs self path full).2.
Proof.
  unfold filter.
  repeat (match goal with
          | |- context [if ?b then _ else _] => destruct b
          | |- context [match ?x with _ => _ end] => destruct x
          end; simpl; try set_solver).
Qed.

(** The mode is not touched by the filter. *)
Lemma filter_mode lib cfg fs self path full :
  mode (filter lib cfg fs self path full).2 = mode self.
Proof.
  unfold filter.
  repeat (match goal with
          | |- context [if ?b then _ else _] => destruct b
          | |- context [match ?x with _ => _ end] => destruct x
          end; simpl; try done).
Qed.

(** What the filter leaves in the object once the local path exists. *)
Lemma filter_records lib cfg fs self path full lp :
  is_dir path = false →
  mem (Str.lower (AlistPathM.suffix path)) (process_file_exts cfg) = true →
  get_local_path cfg path full = Ok lp →
  (filter lib cfg fs self path full).2 =
    {| mode := mode self; self_full_path := Some full;
       processed_local_paths := {[lp]} ∪ processed_local_paths self |}.
Proof.
  intros Hd Hp Hl. unfold filter. rewrite Hd, Hp, Hl. simpl.
  repeat (match goal with
          | |- context [if ?b then _ else _] => destruct b
          | |- context [match ?x with _ => _ end] => destruct x
          end; simpl; try done).
Qed.

(** ** Steps of the run *)

Ltac case_all :=
  repeat match goal with
         | H : context [match ?x with _ => _ end] |- _ =>
             let E := fresh "E" in destruct x eqn:E; simpl in H; try discriminate H
         end.

Lemma abort_self e s : st_self (abort e s) = st_self s.
Proof. reflexivity. Qed.

Lemma abort_fs e s : st_fs (abort e s) = st_fs s.
Proof. reflexivity. Qed.

Lemma abort_main e s : st_main (abort e s) = Raised e.
Proof. reflexivity. Qed.

Lemma cancel_finished t : unfinished (t_state (cancel t)) = false.
Proof. unfold cancel. destruct (unfinished (t_state t)) eqn:E; simpl; done. Qed.



(** Once [run] has raised or returned nothing runs any more. *)
Lemma raised_stuck lib cfg e s l :
  st_main s = Raised e → exec lib cfg l s = None.
Proof.
  intros H. destruct l; simpl.
  - unfold exec_main. by rewrite H.
  - unfold exec_task. by rewrite H.
  - unfold exec_finish. by rewrite H.
Qed.

Lemma returned_stuck lib cfg s l :
  st_main s = Returned → exec lib cfg l s = None.
Proof.
  intros H. destruct l; simpl.
  - unfold exec_main. by rewrite H.
  - unfold exec_task. by rewrite H.
  - unfold exec_finish. by rewrite H.
Qed.

Lemma exec_main_filter lib cfg s path full detail ops :
  st_main s = Running (OpFilter path full detail :: ops) →
  exec_main lib cfg s =
    let r := filter lib cfg (st_fs s) (st_self s) path full in
    let s1 := set_self r.2 s in
    match r.1 with
    | Raise e => Some (abort e s1)
    | Ok false => Some (set_main (Running ops) s1)
    | Ok true =>
        if is_detail r.2 then
          match detail with
          | None => Some (abort RuntimeError (emit (EvDetail full) s1))
          | Some d =>
              Some (set_main (Running ops)
                      (set_tasks (st_tasks s1 ++ [new_task d path full])
                         (emit (EvDetail full) s1)))
          end
        else
          Some (set_main (Running ops)
                  (set_tasks (st_tasks s1 ++ [new_task path path full]) s1))
    end.
Proof.
  intros H. unfold exec_main. rewrite H.
  by destruct (filter lib cfg (st_fs s) (st_self s) path full) as [r self'].
Qed.

Lemma enter_download_self lib i t lp s :
  st_self (enter_download lib i t lp s) = st_self s.
Proof. unfold enter_download. by destruct (st_downloaders s). Qed.

(** A task never assigns a field of the object. *)
Lemma exec_task_self lib cfg i r s s' :
  exec_task lib cfg i r s = Some s' → st_self s' = st_self s.
Proof.
  unfold exec_task. intros H. case_all;
    injection H as <-; simpl; rewrite ?enter_download_self; done.
Qed.

Lemma exec_finish_self lib cfg order s s' :
  exec_finish lib cfg order s = Some s' → st_self s' = st_self s.
Proof.
  unfold exec_finish. intros H. case_all; injection H as <-; done.
Qed.

Lemma exec_main_processed lib cfg s s' :
  exec_main lib cfg s = Some s' →
  processed_local_paths (st_self s) ⊆ processed_local_paths (st_self s').
Proof.
  intros H. destruct (st_main s) as [ops|[|[d ok| |path full detail] ops]| |] eqn:Hm.
  - unfold exec_main in H. rewrite Hm in H. case_all. by injection H as <-.
  - unfold exec_main in H. by rewrite Hm in H.
  - unfold exec_main in H. rewrite Hm in H. case_all; by injection H as <-.
  - unfold exec_main in H. rewrite Hm in H. case_all; by injection H as <-.
  - rewrite (exec_main_filter _ _ _ _ _ _ _ Hm) in H. simpl in H.
    pose proof (filter_processed_mono lib cfg (st_fs s) (st_self s) path full) as Hmono.
    case_all; injection H as <-; exact Hmono.
  - unfold exec_main in H. by rewrite Hm in H.
  - unfold exec_main in H. by rewrite Hm in H.
Qed.

(** No step of a run removes a path from [processed_local_paths]. *)
Lemma exec_processed_mono lib cfg l s s' :
  exec lib cfg l s = Some s' →
  processed_local_paths (st_self s) ⊆ processed_local_paths (st_self s').
Proof.
  destruct l; simpl; intros H.
  - by apply exec_main_processed in H.
  - by rewrite (exec_task_self _ _ _ _ _ _ H).
  - by rewrite (exec_finish_self _ _ _ _ _ H).
Qed.

Lemma execs_processed_mono lib cfg ls s s' :
  execs lib cfg ls s = Some s' →
  processed_local_paths (st_self s) ⊆ processed_local_paths (st_self s').
Proof.
  revert s. induction ls as [|l ls IH]; simpl; intros s H.
  - by injection H as <-.
  - destruct (exec lib cfg l s) as [s1|] eqn:E; [|done].
    etrans; [by eapply exec_processed_mono|by apply IH].
Qed.

(** ** What the entry filter answers *)

Lemma filter_accepts lib cfg fs self path full :
  (filter lib cfg fs self path full).1 = Ok true →
  is_dir path = false ∧
  ∃ lp, get_local_path cfg path full = Ok lp ∧
        (filter lib cfg fs self path full).2 =
          {| mode := mode self; self_full_path := Some full;
             processed_local_paths := {[lp]} ∪ processed_local_paths self |}.
Proof.
  unfold filter. intros H.
  destruct (is_dir path); [done|].
  destruct (mem _ (process_file_exts cfg)); [|done]. simpl in *.
  destruct (get_local_path cfg path full) as [lp|e]; simpl in H;
    [|by destruct (is_OSError e)].
  split; [done|]. exists lp. split; [done|].
  repeat (match goal with
          | |- context [if ?b then _ else _] => destruct b
          | |- context [match ?x with _ => _ end] => destruct x
          end; simpl; try done).
Qed.

(** The comparison of the filter, for a suffix found in [download_exts]
    as it is written. *)
Lemma filter_download_compares lib cfg fs self path full lp n ts :
  is_dir path = false →
  mem (Str.lower (AlistPathM.suffix path)) (process_file_exts cfg) = true →
  mem (AlistPathM.suffix path) (download_exts cfg) = true →
  overwrite cfg = false →
  get_local_path cfg path full = Ok lp →
  fs !! lp = Some n →
  fromisoformat lib (modified path) = Some ts →
  (filter lib cfg fs self path full).1 =
    Ok (bool_decide (n_mtime n < ts ∨ n_size n < size path)).
Proof.
  intros Hd Hp Hx Ho Hl Hn Ht. unfold filter.
  rewrite Hd, Hp, Hl, Ho, Hx. simpl.
  unfold Fs.exists_, stat, AlistPathM.modified_timestamp, AlistPathM.parse_timestamp.
  rewrite Hn, Ht. rewrite bool_decide_true by eauto. simpl.
  destruct (Z.ltb_spec (n_mtime n) ts) as [H1|H1]; simpl.
  - by rewrite bool_decide_true by auto.
  - destruct (Z.ltb_spec (n_size n) (size path)) as [H2|H2]; simpl.
    + by rewrite bool_decide_true by auto.
    + rewrite bool_decide_false; [done|]. intros [?|?]; lia.
Qed.

(** C6, at the entry [A.SRT] of 500 bytes with subtitles enabled and a
    local [/out/A.SRT] of 200 bytes: the suffix is in the download set
    once lowered, which is how the filter admits the entry, but the
    comparison is guarded by the suffix as written, so the smaller local
    file is not noticed and the filter answers false. *)
Theorem C6_upper_case_suffix_never_compared :
  let path := Scenario.entry "A.SRT" "2024-01-01T00:00:00" in
  let fs := Scenario.fs_with "A.SRT" in
  is_dir path = false ∧
  mem (Str.lower (AlistPathM.suffix path)) (download_exts Scenario.cfg0) = true ∧
  overwrite Scenario.cfg0 = false ∧
  get_local_path Scenario.cfg0 path "/media/A.SRT" = Ok (Scenario.out_file "A.SRT") ∧
  (n_size <$> fs !! Scenario.out_file "A.SRT") = Some 200 ∧
  size path = 500 ∧
  (filter Scenario.lib0 Scenario.cfg0 fs Scenario.self0 path "/media/A.SRT").1 = Ok false.
Proof. vm_compute. repeat split; reflexivity. Qed.

(** C8: once the local path of a file with a processed suffix exists,
    the filter has put it in [processed_local_paths] whatever it
    answers or raises; the set is empty when [run] starts and no step of
    a run takes a path out of it. *)
Theorem C8_processed_paths_recorded_and_growing
    lib cfg fs self path full lp :
  is_dir path = false →
  mem (Str.lower (AlistPathM.suffix path)) (process_file_exts cfg) = true →
  get_local_path cfg path full = Ok lp →
  (lp ∈ processed_local_paths (filter lib cfg fs self path full).2 ∧
   processed_local_paths self ⊆
     processed_local_paths (filter lib cfg fs self path full).2) ∧
  (∀ fs0 remote, processed_local_paths (st_self (start cfg fs0 remote)) = ∅) ∧
  (∀ ls s s', execs lib cfg ls s = Some s' →
     processed_local_paths (st_self s) ⊆ processed_local_paths (st_self s')).
Proof.
  intros Hd Hp Hl. split; [split|split].
  - rewrite (filter_records lib cfg fs self path full lp Hd Hp Hl). simpl. set_solver.
  - apply filter_processed_mono.
  - reflexivity.
  - intros ls s s'. apply execs_processed_mono.
Qed.

Lemma C8_witness :
  Scenario.out_file "a.strm" ∈
    processed_local_paths
      (filter Scenario.lib0 Scenario.cfg0 (Scenario.fs_with "a.strm") Scenario.self0
         (Scenario.entry "a.mp4" "") "/media/a.mp4").2.
Proof.
  refine (proj1 (proj1 (C8_processed_paths_recorded_and_growing
            Scenario.lib0 Scenario.cfg0 (Scenario.fs_with "a.strm") Scenario.self0
            (Scenario.entry "a.mp4" "") "/media/a.mp4" (Scenario.out_file "a.strm")
            _ _ _))); reflexivity.
Defined.

(** C9 as stated fails: with [other_ext = ".mp4"] the media suffix is
    also in [download_exts]; the pointer file [/out/a.strm] of 200 bytes
    is compared with the 500 bytes of the remote entry and the filter
    answers true. *)
Lemma C9_counterexample :
  ¬ (∀ lib a fs self path full lp,
       is_dir path = false →
       mem (Str.lower (AlistPathM.suffix path)) VIDEO_EXTS = true →
       overwrite (init a) = false →
       get_local_path (init a) path full = Ok lp →
       PurePath.suffix lp = ".strm" →
       Fs.exists_ fs lp = true →
       (filter lib (init a) fs self path full).1 = Ok false).
Proof.
  intros H.
  specialize (H Scenario.lib0 (Scenario.params ".mp4" 1) (Scenario.fs_with "a.strm")
                Scenario.self0 (Scenario.entry "a.mp4" "2024-01-01T00:00:00")
                "/media/a.mp4" (Scenario.out_file "a.strm")
                eq_refl eq_refl eq_refl eq_refl eq_refl eq_refl).
  vm_compute in H. discriminate H.
Qed.

(** C9, amended: a media entry whose suffix, as written, is not in
    [download_exts] is skipped on the existence of its pointer file
    alone: whatever the times, sizes, signature and URLs are, the filter
    answers false, and the step of the run creates no task, issues no
    remote call and leaves the local files alone. *)
Theorem C9_existing_pointer_file_skipped
    lib a s path full detail ops lp :
  st_main s = Running (OpFilter path full detail :: ops) →
  is_dir path = false →
  mem (Str.lower (AlistPathM.suffix path)) VIDEO_EXTS = true →
  mem (AlistPathM.suffix path) (download_exts (init a)) = false →
  overwrite (init a) = false →
  get_local_path (init a) path full = Ok lp →
  Fs.exists_ (st_fs s) lp = true →
  (filter lib (init a) (st_fs s) (st_self s) path full).1 = Ok false ∧
  ∃ s', exec lib (init a) LMain s = Some s' ∧
        st_main s' = Running ops ∧
        st_tasks s' = st_tasks s ∧
        st_events s' = st_events s ∧
        st_fs s' = st_fs s.
Proof.
  intros Hm Hd Hv Hx Ho Hl He.
  assert (Hf : (filter lib (init a) (st_fs s) (st_self s) path full).1 = Ok false).
  { unfold filter. rewrite Hd, (process_of_video a _ Hv), Hl, Ho, He, Hx. done. }
  split; [done|]. simpl. rewrite (exec_main_filter _ _ _ _ _ _ _ Hm). simpl.
  rewrite Hf. eexists. split; [done|]. done.
Qed.

Lemma C9_witness :
  (filter Scenario.lib0 Scenario.cfg0 (Scenario.fs_with "a.strm") Scenario.self0
     (Scenario.entry "a.mp4" "") "/media/a.mp4").1 = Ok false.
Proof.
  refine (proj1 (C9_existing_pointer_file_skipped Scenario.lib0 (Scenario.params "" 1)
            (Scenario.at_filter (Scenario.fs_with "a.strm") (Scenario.entry "a.mp4" ""))
            (Scenario.entry "a.mp4" "") "/media/a.mp4" None [] (Scenario.out_file "a.strm")
            _ _ _ _ _ _ _)); reflexivity.
Defined.



(** ** The path mapper *)

Lemma remove_first_unfold old s :
  Str.remove_first old s =
    if String.prefix old s then
      String.substring (String.length old) (String.length s - String.length old) s
    else match s with
         | EmptyString => EmptyString
         | String c s' => String c (Str.remove_first old s')
         end.
Proof. by destruct s. Qed.

(** Removing the leftmost occurrence of a prefix removes that prefix. *)
Lemma remove_first_prefix old s :
  String.prefix old s = true →
  Str.remove_first old s = SpecPathMapper.strip_prefix old s.
Proof.
  intros H. unfold SpecPathMapper.strip_prefix.
  rewrite remove_first_unfold. by rewrite H.
Qed.

Lemma strip_leading_separator_eq s :
  (if Str.startswith "/" s then Str.tail s else s)
  = SpecPathMapper.strip_leading_separator s.
Proof.
  destruct s as [|c s]; [done|]. unfold Str.startswith.
  change (String.prefix "/" (String c s))
    with (if ascii_dec "/" c then String.prefix "" s else false).
  cbn [SpecPathMapper.strip_leading_separator Str.tail].
  destruct (ascii_dec "/" c) as [<-|Hne]; [by destruct s|].
  destruct (Ascii.eqb_spec c "/") as [->|_]; done.
Qed.

Lemma length_app_string x y :
  String.length (x ++ y) = (String.length x + String.length y)%nat.
Proof. induction x as [|c x IH]; simpl; [done|]. by rewrite IH. Qed.

Lemma substring_all s : String.substring 0 (String.length s) s = s.
Proof. induction s as [|c s IH]; simpl; [done|]. by rewrite IH. Qed.

Lemma substring_app_r x y :
  String.substring (String.length x) (String.length y) (x ++ y) = y.
Proof. induction x as [|c x IH]; simpl; [apply substring_all|done]. Qed.

Lemma substring_app_l x y :
  String.substring 0 (String.length x) (x ++ y) = x.
Proof.
  induction x as [|c x IH]; simpl; [by destruct y|]. by rewrite IH.
Qed.

Lemma length_substring s : ∀ i m,
  (i + m ≤ String.length s)%nat → String.length (String.substring i m s) = m.
Proof.
  induction s as [|c s IH]; intros i m H; simpl in *.
  - destruct i, m; simpl; lia.
  - destruct i as [|i].
    + destruct m as [|m]; simpl; [done|]. rewrite IH; [done|lia].
    + apply IH. lia.
Qed.

Lemma rfind_dot_bound s i : Str.rfind_dot s = Some i → (i < String.length s)%nat.
Proof.
  revert i. induction s as [|c s IH]; simpl; intros i H; [done|].
  destruct (Str.rfind_dot s) as [j|].
  - injection H as <-. specialize (IH j eq_refl). lia.
  - destruct (Ascii.eqb c "."); [|done]. injection H as <-. lia.
Qed.

Lemma rfind_dot_strm x : Str.rfind_dot (x ++ ".strm") = Some (String.length x).
Proof. induction x as [|c x IH]; simpl; [done|]. simpl in IH. by rewrite IH. Qed.

(** A name that ends in [.strm] after a non-empty stem has that suffix. *)
Lemma name_suffix_strm x : x ≠ "" → PurePath.name_suffix (x ++ ".strm") = ".strm".
Proof.
  intros Hx. unfold PurePath.name_suffix. rewrite rfind_dot_strm.
  rewrite length_app_string. simpl String.length.
  assert (0 < String.length x)%nat by (destruct x; simpl; [done|lia]).
  replace (0 <? String.length x)%nat with true by (symmetry; apply Nat.ltb_lt; lia).
  replace (String.length x <? String.length x + 5 - 1)%nat with true
    by (symmetry; apply Nat.ltb_lt; lia).
  simpl. replace (String.length x + 5 - String.length x)%nat
    with (String.length ".strm") by (simpl; lia).
  apply substring_app_r.
Qed.

Lemma name_stem_strm x : x ≠ "" → PurePath.name_stem (x ++ ".strm") = x.
Proof.
  intros Hx. unfold PurePath.name_stem. rewrite (name_suffix_strm x Hx).
  rewrite length_app_string. simpl String.length.
  replace (String.length x + 5 - 5)%nat with (String.length x) by lia.
  apply substring_app_l.
Qed.

(** The stem of a non-empty name is not empty. *)
Lemma name_stem_nonempty n : n ≠ "" → PurePath.name_stem n ≠ "".
Proof.
  intros Hn. unfold PurePath.name_stem, PurePath.name_suffix.
  assert (0 < String.length n)%nat by (destruct n; simpl; [done|lia]).
  assert (Hne : ∀ k, (0 < k ≤ String.length n)%nat → String.substring 0 k n ≠ "").
  { intros k Hk Habs. pose proof (length_substring n 0 k ltac:(lia)) as Hl.
    rewrite Habs in Hl. simpl in Hl. lia. }
  destruct (Str.rfind_dot n) as [i|] eqn:Hi.
  - pose proof (rfind_dot_bound _ _ Hi).
    destruct (0 <? i)%nat eqn:Hlo; simpl.
    + destruct (i <? String.length n - 1)%nat eqn:Hhi; simpl.
      * apply Nat.ltb_lt in Hlo, Hhi.
        rewrite length_substring by lia. apply Hne. lia.
      * apply Hne. lia.
    + apply Hne. simpl. lia.
  - apply Hne. simpl. lia.
Qed.

(** What [with_suffix(".strm")] returns: the same directory, the same
    stem, the suffix [.strm]; it raises exactly on an empty name. *)
Lemma with_suffix_strm p :
  (PurePath.name p ≠ "" →
   ∃ lp, PurePath.with_suffix p ".strm" = Ok lp ∧
         PurePath.suffix lp = ".strm" ∧
         PurePath.stem lp = PurePath.stem p ∧
         PurePath.parent lp = PurePath.parent p) ∧
  (PurePath.name p = "" → PurePath.with_suffix p ".strm" = Raise ValueError).
Proof.
  unfold PurePath.with_suffix. split; intros Hn.
  - destruct (String.eqb_spec (PurePath.name p) "") as [E|_]; [done|].
    eexists. split; [done|].
    pose proof (name_stem_nonempty _ Hn) as Hs.
    unfold PurePath.suffix, PurePath.stem, PurePath.parent, PurePath.name. simpl.
    rewrite last_last, removelast_last.
    fold (PurePath.name p).
    by rewrite name_suffix_strm, name_stem_strm.
  - by rewrite Hn.
Qed.

(** The mapper up to the suffix test is the mapper of the design, for
    a full path below the remote root. *)
Lemma local_base_as_designed cfg path full :
  (flatten_mode cfg = false →
   full ≠ "" ∧ String.prefix (source_dir cfg) full = true) →
  local_base cfg path full = SpecPathMapper.map_base cfg path full.
Proof.
  intros Hh. unfold local_base, SpecPathMapper.map_base.
  destruct (flatten_mode cfg) eqn:Hf; [done|].
  destruct (Hh eq_refl) as [Hne Hpre].
  unfold nonempty. destruct (String.eqb_spec full "") as [->|_]; [done|]. simpl.
  rewrite strip_leading_separator_eq. by rewrite remove_first_prefix.
Qed.

(** C7: without the suffix test the mapper returns the target root
    joined with the name of the entry (flatten mode) or with the full
    remote path less the remote root in front and less a leading
    separator (otherwise, for a full path that starts with the remote
    root, as every path of the traversal does); for a media suffix,
    compared in lower case, the suffix of that path is replaced by
    [.strm]: same directory, same stem, suffix [.strm]; the replacement
    raises only when the path has no final component. *)
Theorem C7_path_mapper cfg path full :
  (flatten_mode cfg = false →
   full ≠ "" ∧ String.prefix (source_dir cfg) full = true) →
  let base := SpecPathMapper.map_base cfg path full in
  local_base cfg path full = base ∧
  (mem (Str.lower (AlistPathM.suffix path)) VIDEO_EXTS = false →
   get_local_path cfg path full = Ok base) ∧
  (mem (Str.lower (AlistPathM.suffix path)) VIDEO_EXTS = true →
   (PurePath.name base ≠ "" →
    ∃ lp, get_local_path cfg path full = Ok lp ∧
          PurePath.suffix lp = ".strm" ∧
          PurePath.stem lp = PurePath.stem base ∧
          PurePath.parent lp = PurePath.parent base) ∧
   (PurePath.name base = "" →
    get_local_path cfg path full = Raise ValueError)).
Proof.
  intros Hh base.
  assert (Hb : local_base cfg path full = base)
    by by apply local_base_as_designed.
  split; [done|]. unfold get_local_path. rewrite Hb. split.
  - by intros ->.
  - intros ->. apply with_suffix_strm.
Qed.

Lemma C7_witness :
  get_local_path Scenario.cfg0 (Scenario.entry "a.MP4" "") "/media/tv/a.MP4"
  = Ok (mkPath true ["out"; "tv"; "a.strm"]).
Proof.
  destruct (C7_path_mapper Scenario.cfg0 (Scenario.entry "a.MP4" "") "/media/tv/a.MP4")
    as (_ & _ & Hm).
  - intros _. split; [discriminate|reflexivity].
  - destruct (Hm eq_refl) as [Hok _].
    destruct (Hok ltac:(discriminate)) as (lp & Hlp & _).
    rewrite Hlp. vm_compute in Hlp. exact (eq_sym Hlp).
Defined.

(** ** Paths and directories *)

Lemma below_parts d q : Fs.below d q → ∃ k, parts q = (parts d ++ k)%list ∧ k ≠ [].
Proof.
  intros (_ & [k Hk] & Hne). exists k. split; [done|].
  intros ->. rewrite app_nil_r in Hk. done.
Qed.

Lemma below_nonempty d q : Fs.below d q → parts q ≠ [].
Proof.
  intros H. destruct (below_parts d q H) as (k & Hk & Hne).
  rewrite Hk. destruct (parts d), k; done.
Qed.

Lemma below_irrefl d : ¬ Fs.below d d.
Proof. by intros (_ & _ & H). Qed.

Lemma below_trans a b c : Fs.below a b → Fs.below b c → Fs.below a c.
Proof.
  intros Hab Hbc.
  destruct (below_parts a b Hab) as (k1 & Hk1 & Hne1).
  destruct (below_parts b c Hbc) as (k2 & Hk2 & Hne2).
  destruct Hab as (Ha & _ & _), Hbc as (Hb & _ & _).
  split; [congruence|]. split.
  - exists (k1 ++ k2)%list. rewrite Hk2, Hk1. by rewrite <- app_assoc.
  - rewrite Hk2, Hk1, <- app_assoc. intros Heq.
    apply (f_equal length) in Heq. rewrite !length_app in Heq.
    destruct k1; [done|]. simpl in Heq. lia.
Qed.

Lemma child_below d q : Fs.child_of d q → Fs.below d q.
Proof.
  intros [Hne <-]. unfold PurePath.parent. split; [done|]. simpl.
  destruct (exists_last Hne) as (l & x & ->). rewrite removelast_last. split.
  - by exists [x].
  - intros Heq. apply (f_equal length) in Heq. rewrite length_app in Heq.
    simpl in Heq. lia.
Qed.

Lemma parent_shorter q :
  parts q ≠ [] → (length (parts (PurePath.parent q)) < length (parts q))%nat.
Proof.
  intros Hne. destruct (exists_last Hne) as (l & x & E). simpl. rewrite E.
  rewrite removelast_last, length_app. simpl. lia.
Qed.

(** One step up from below [d] is [d] or still below [d]. *)
Lemma below_parent d q :
  Fs.below d q → PurePath.parent q = d ∨ Fs.below d (PurePath.parent q).
Proof.
  intros H. destruct (below_parts d q H) as (k & Hk & Hne).
  destruct H as (Ha & _ & _).
  destruct (exists_last Hne) as (k' & x & ->).
  assert (Hp : parts (PurePath.parent q) = (parts d ++ k')%list).
  { simpl. rewrite Hk, app_assoc. apply removelast_last. }
  destruct k' as [|y k'].
  - left. destruct d as [da dp]. unfold PurePath.parent. simpl in *.
    rewrite app_nil_r in Hp. simpl in Hp. by rewrite Ha, Hp.
  - right. split; [done|]. rewrite Hp. split; [by eexists|].
    intros Heq. apply (f_equal length) in Heq. rewrite length_app in Heq.
    simpl in Heq. lia.
Qed.

(** Below [d] there is an entry of [d] on the way to [q]. *)
Lemma below_via_child d q :
  Fs.below d q → ∃ c, Fs.child_of d c ∧ (c = q ∨ Fs.below c q).
Proof.
  remember (length (parts q)) as n eqn:Hn. revert q Hn.
  induction (lt_wf n) as [n _ IH]. intros q -> H.
  destruct (below_parent d q H) as [Hp|Hp].
  - exists q. split; [|by left]. split; [by eapply below_nonempty|done].
  - pose proof (below_nonempty d q H) as Hne.
    destruct (IH _ (parent_shorter q Hne) _ eq_refl Hp) as (c & Hc & Hcq).
    exists c. split; [done|]. right.
    assert (Hpq : Fs.below (PurePath.parent q) q).
    { apply child_below. by split. }
    destruct Hcq as [->|Hcq]; [done|]. by eapply below_trans.
Qed.

Lemma elem_of_children (fs : FS) d q :
  q ∈ Fs.children fs d ↔ is_Some (fs !! q) ∧ Fs.child_of d q.
Proof.
  unfold Fs.children. rewrite list_elem_of_filter, elem_of_elements, elem_of_dom.
  tauto.
Qed.

Lemma elem_of_descendants (fs : FS) d q :
  q ∈ Fs.descendants fs d ↔ is_Some (fs !! q) ∧ Fs.below d q.
Proof.
  unfold Fs.descendants. rewrite list_elem_of_filter, elem_of_elements, elem_of_dom.
  tauto.
Qed.

Lemma children_nil (fs : FS) d :
  Fs.children fs d = [] ↔ ∀ q, is_Some (fs !! q) → ¬ Fs.child_of d q.
Proof.
  split.
  - intros H q Hq Hc. assert (q ∈ Fs.children fs d) as Hin by by apply elem_of_children.
    rewrite H in Hin. by apply elem_of_nil in Hin.
  - intros H. destruct (Fs.children fs d) as [|q l] eqn:E; [done|].
    assert (q ∈ Fs.children fs d) as Hin by (rewrite E; left).
    apply elem_of_children in Hin as [Hq Hc]. by destruct (H q Hq).
Qed.

Lemma is_dir_Some (fs : FS) d :
  Fs.is_dir fs d = true ↔ ∃ n, fs !! d = Some n ∧ n_kind n = KDir.
Proof.
  unfold Fs.is_dir. destruct (fs !! d) as [n|]; split.
  - intros H%bool_decide_eq_true. eauto.
  - intros (n' & [= <-] & H). by apply bool_decide_eq_true.
  - done.
  - by intros (n' & ? & _).
Qed.

Lemma is_file_Some (fs : FS) p :
  Fs.is_file fs p = true ↔ ∃ n, fs !! p = Some n ∧ n_kind n = KFile.
Proof.
  unfold Fs.is_file. destruct (fs !! p) as [n|]; split.
  - intros H%bool_decide_eq_true. eauto.
  - intros (n' & [= <-] & H). by apply bool_decide_eq_true.
  - done.
  - by intros (n' & ? & _).
Qed.

(** In a well-formed tree every directory between the target and an
    existing path exists. *)
Lemma ancestors_are_dirs target (fs : FS) q d :
  well_formed target fs → is_Some (fs !! q) → Fs.below target q →
  Fs.below d q → d = target ∨ Fs.below target d →
  Fs.is_dir fs d = true.
Proof.
  intros Hwf. remember (length (parts q)) as n eqn:Hn. revert q Hn.
  induction (lt_wf n) as [n _ IH]. intros q -> Hq Htq Hdq Hd.
  pose proof (Hwf q Hq Htq) as Hpar.
  destruct (below_parent d q Hdq) as [<-|Hp]; [done|].
  apply (IH _ (parent_shorter q (below_nonempty _ _ Htq)) (PurePath.parent q) eq_refl).
  - apply is_dir_Some in Hpar as (n & -> & _). by eexists.
  - destruct Hd as [->|Hd]; [done|]. by eapply below_trans.
  - done.
  - done.
Qed.

Lemma target_is_dir target (fs : FS) q :
  well_formed target fs → is_Some (fs !! q) → Fs.below target q →
  Fs.is_dir fs target = true.
Proof. intros Hwf Hq Hb. eapply ancestors_are_dirs; eauto. Qed.

(** ** The reconciler: what is never removed *)

Lemma unlink_Ok (fs fs' : FS) p :
  Fs.unlink fs p = Ok fs' → fs' = delete p fs ∧ Fs.is_file fs p = true.
Proof.
  unfold Fs.unlink, Fs.is_file. destruct (fs !! p) as [n|]; [|done].
  destruct (bool_decide (n_kind n = KFile)); [|done]. by intros [= <-].
Qed.

Lemma rmdir_Ok (fs fs' : FS) d :
  Fs.rmdir fs d = Ok fs' →
  fs' = delete d fs ∧ Fs.is_dir fs d = true ∧ Fs.children fs d = [] ∧ parts d ≠ [].
Proof.
  unfold Fs.rmdir, Fs.is_dir. destruct (fs !! d) as [n|]; [|done].
  destruct (bool_decide (n_kind n = KDir)); [|done].
  destruct (Fs.children fs d); [|done]. destruct (parts d); [done|].
  by intros [= <-].
Qed.

Lemma rmdir_empty (fs : FS) d :
  Fs.is_dir fs d = true → Fs.children fs d = [] → parts d ≠ [] →
  Fs.rmdir fs d = Ok (delete d fs).
Proof.
  unfold Fs.rmdir, Fs.is_dir. intros Hd -> Hp. destruct (fs !! d) as [n|]; [|done].
  rewrite Hd. by destruct (parts d).
Qed.

Lemma iterdir_dir (fs : FS) d :
  Fs.is_dir fs d = true → Fs.iterdir fs d = Ok (Fs.children fs d).
Proof.
  unfold Fs.iterdir, Fs.is_dir. destruct (fs !! d) as [n|]; [|done]. by intros ->.
Qed.

Lemma delete_keeps_file (fs : FS) x q n :
  fs !! q = Some n → q ≠ x → delete x fs !! q = Some n.
Proof. intros H Hne. by rewrite lookup_delete_ne. Qed.

(** The walk removes directories only, and never the target. *)
Lemma remove_empty_dirs_keeps target rounds : ∀ (fs : FS) d,
  (remove_empty_dirs target rounds fs d).1 ⊆ fs ∧
  (∀ q n, fs !! q = Some n → n_kind n = KFile →
          (remove_empty_dirs target rounds fs d).1 !! q = Some n) ∧
  (remove_empty_dirs target rounds fs d).1 !! target = fs !! target.
Proof.
  induction rounds as [|rounds IH]; intros fs d; simpl; [done|].
  destruct (decide (d = target)) as [->|Hne]; [done|].
  destruct (Fs.iterdir fs d) as [[|c cs]|e]; simpl; [|done|done].
  destruct (Fs.rmdir fs d) as [fs'|e] eqn:Hr; simpl; [|done].
  apply rmdir_Ok in Hr as (-> & Hd & _ & _).
  destruct (IH (delete d fs) (PurePath.parent d)) as (H1 & H2 & H3).
  split; [|split].
  - etrans; [exact H1|]. apply delete_subseteq.
  - intros q n Hq Hk. apply H2; [|done]. apply delete_keeps_file; [done|].
    intros ->. apply is_dir_Some in Hd as (n' & Hn' & Hk'). congruence.
  - rewrite H3. by apply lookup_delete_ne.
Qed.

(** One round of the loop removes no file but its own, and not the
    target. *)
Lemma cleanup_file_keeps lib cfg (fs : FS) f :
  (cleanup_file lib cfg fs f).1 ⊆ fs ∧
  (∀ q n, fs !! q = Some n → n_kind n = KFile → q ≠ f →
          (cleanup_file lib cfg fs f).1 !! q = Some n) ∧
  (f ≠ target_dir cfg →
   (cleanup_file lib cfg fs f).1 !! target_dir cfg = fs !! target_dir cfg).
Proof.
  unfold cleanup_file. destruct (ignored lib cfg f); [done|].
  destruct (Fs.exists_ fs f); [|done].
  destruct (Fs.unlink fs f) as [fs'|e] eqn:Hu; [|done].
  apply unlink_Ok in Hu as [-> _].
  match goal with |- context [remove_empty_dirs ?t ?r ?m ?d] =>
    destruct (remove_empty_dirs_keeps t r m d) as (H1 & H2 & H3) end.
  split; [|split].
  - etrans; [exact H1|]. apply delete_subseteq.
  - intros q n Hq Hk Hne. apply H2; [|done]. by apply delete_keeps_file.
  - intros Hne. rewrite H3. by apply lookup_delete_ne.
Qed.

Lemma cleanup_loop_subseteq lib cfg order : ∀ fs : FS,
  cleanup_loop lib cfg order fs ⊆ fs.
Proof.
  induction order as [|f order IH]; intros fs; simpl; [done|].
  etrans; [apply IH|]. apply cleanup_file_keeps.
Qed.

Lemma cleanup_loop_keeps lib cfg order : ∀ (fs : FS) p n,
  p ∉ order → fs !! p = Some n → n_kind n = KFile →
  cleanup_loop lib cfg order fs !! p = Some n.
Proof.
  induction order as [|f order IH]; intros fs p n Hp Hn Hk; simpl; [done|].
  apply not_elem_of_cons in Hp as [Hpf Hp].
  apply IH; [done| |done]. by apply cleanup_file_keeps.
Qed.

Lemma cleanup_loop_target lib cfg order : ∀ fs : FS,
  target_dir cfg ∉ order →
  cleanup_loop lib cfg order fs !! target_dir cfg = fs !! target_dir cfg.
Proof.
  induction order as [|f order IH]; intros fs Hp; simpl; [done|].
  apply not_elem_of_cons in Hp as [Hpf Hp].
  rewrite IH by done. by apply cleanup_file_keeps.
Qed.

(** The loop runs over paths that are not in [processed_local_paths]. *)
Lemma iterates_deletion_set cfg processed (fs : FS) order all f :
  all_local_files cfg fs = Ok all →
  iterates (deletion_set cfg processed fs) order →
  f ∈ order ↔ f ∈ all ∧ f ∉ processed.
Proof.
  unfold iterates, deletion_set, files_to_delete. intros -> Hperm.
  rewrite Hperm, elem_of_elements, elem_of_difference, elem_of_list_to_set. done.
Qed.

(** C4: a file whose path is in [processed_local_paths] is still there,
    with the node it had, after [__cleanup_local_files], whatever that
    node holds; when the listing of the target raises nothing is
    removed at all. *)
Theorem C4_processed_files_survive_cleanup
    lib cfg processed order (fs : FS) p n :
  iterates (deletion_set cfg processed fs) order →
  p ∈ processed →
  fs !! p = Some n →
  n_kind n = KFile →
  match cleanup_local_files lib cfg processed order fs with
  | Ok fs' => fs' !! p = Some n
  | Raise _ => True
  end.
Proof.
  intros Hit Hp Hn Hk. unfold cleanup_local_files.
  destruct (all_local_files cfg fs) as [all|e] eqn:Hall; [|done].
  apply cleanup_loop_keeps; [|done|done].
  rewrite (iterates_deletion_set _ _ _ _ _ _ Hall Hit). tauto.
Qed.

(** ** The reconciler: what is removed *)

Lemma is_dir_delete (fs : FS) x d :
  Fs.is_dir (delete x fs) d = true ↔ d ≠ x ∧ Fs.is_dir fs d = true.
Proof.
  unfold Fs.is_dir. destruct (decide (d = x)) as [->|Hne].
  - rewrite lookup_delete_eq. split; [done|]. by intros [[] _].
  - rewrite lookup_delete_ne by done. tauto.
Qed.

Lemma parent_neq q : parts q ≠ [] → PurePath.parent q ≠ q.
Proof.
  intros Hne Heq. pose proof (parent_shorter q Hne) as Hlt.
  rewrite Heq in Hlt. lia.
Qed.

(** Removing [x] empties no directory but the parent of [x]. *)
Lemma children_delete_other (fs : FS) x d :
  ¬ Fs.child_of d x → Fs.children (delete x fs) d = [] → Fs.children fs d = [].
Proof.
  rewrite !children_nil. intros Hx H q Hq Hc.
  destruct (decide (q = x)) as [->|Hne]; [done|].
  apply (H q); [|done]. by rewrite lookup_delete_ne.
Qed.

Lemma wf_delete_file target (fs : FS) f :
  well_formed target fs → Fs.is_file fs f = true →
  well_formed target (delete f fs).
Proof.
  intros Hwf Hf q Hq Hb.
  destruct (decide (q = f)) as [->|Hne].
  { rewrite lookup_delete_eq in Hq. by destruct Hq. }
  rewrite lookup_delete_ne in Hq by done.
  apply is_dir_delete. split; [|by apply Hwf].
  intros Heq. pose proof (Hwf q Hq Hb) as Hd. rewrite Heq in Hd.
  apply is_dir_Some in Hd as (n & Hn & Hk).
  apply is_file_Some in Hf as (n' & Hn' & Hk'). congruence.
Qed.

Lemma wf_delete_empty_dir target (fs : FS) d :
  well_formed target fs → Fs.children fs d = [] →
  well_formed target (delete d fs).
Proof.
  intros Hwf Hc q Hq Hb.
  destruct (decide (q = d)) as [->|Hne].
  { rewrite lookup_delete_eq in Hq. by destruct Hq. }
  rewrite lookup_delete_ne in Hq by done.
  apply is_dir_delete. split; [|by apply Hwf].
  intros Heq. rewrite children_nil in Hc. apply (Hc q Hq).
  split; [by eapply below_nonempty|done].
Qed.

(** The walk from a directory that may have become empty: in a
    well-formed tree it raises nothing, and it leaves no directory
    empty that was not empty in [fs0]. *)
Lemma remove_empty_dirs_wf target (fs0 : FS) : ∀ rounds (fs : FS) d,
  well_formed target fs →
  d = target ∨ Fs.below target d →
  Fs.is_dir fs d = true →
  (length (parts d) < rounds)%nat →
  (∀ d', Fs.below target d' → d' ≠ d → Fs.is_dir fs d' = true →
         Fs.children fs d' = [] → Fs.children fs0 d' = []) →
  well_formed target (remove_empty_dirs target rounds fs d).1 ∧
  no_new_empty_dir target fs0 (remove_empty_dirs target rounds fs d).1 ∧
  (remove_empty_dirs target rounds fs d).2 = None.
Proof.
  induction rounds as [|rounds IH]; intros fs d Hwf Hd Hdir Hr Hother; [lia|].
  simpl. destruct (decide (d = target)) as [->|Hne]; simpl.
  { split; [done|]. split; [|done]. intros d' Hb Hd' Hc.
    apply Hother; try done. intros ->. by eapply below_irrefl. }
  destruct Hd as [Hd|Hd]; [done|].
  rewrite (iterdir_dir fs d Hdir).
  destruct (Fs.children fs d) as [|c cs] eqn:Hch; simpl.
  - pose proof (below_nonempty _ _ Hd) as Hparts.
    rewrite (rmdir_empty fs d Hdir Hch Hparts).
    apply IH.
    + by apply wf_delete_empty_dir.
    + destruct (below_parent _ _ Hd) as [->|?]; auto.
    + apply is_dir_delete. split; [by apply parent_neq|].
      apply Hwf; [|done]. apply is_dir_Some in Hdir as (n & -> & _). by eexists.
    + pose proof (parent_shorter d Hparts). lia.
    + intros d' Hb Hd' Hdir' Hc'.
      apply is_dir_delete in Hdir' as [Hd'd Hdir'].
      apply Hother; try done.
      apply (children_delete_other fs d d'); [|done].
      intros [_ Heq]. done.
  - split; [done|]. split; [|done]. intros d' Hb Hd' Hc.
    destruct (decide (d' = d)) as [->|Hd'd]; [congruence|]. by apply Hother.
Qed.

(** One round of the loop on a file below the target. *)
Lemma cleanup_file_wf lib cfg (fs0 fs : FS) f :
  well_formed (target_dir cfg) fs →
  no_new_empty_dir (target_dir cfg) fs0 fs →
  Fs.below (target_dir cfg) f →
  (is_Some (fs !! f) → Fs.is_file fs f = true) →
  well_formed (target_dir cfg) (cleanup_file lib cfg fs f).1 ∧
  no_new_empty_dir (target_dir cfg) fs0 (cleanup_file lib cfg fs f).1 ∧
  (ignored lib cfg f = false → (cleanup_file lib cfg fs f).1 !! f = None).
Proof.
  intros Hwf Hne Hb Hfile. unfold cleanup_file.
  destruct (ignored lib cfg f); [done|].
  unfold Fs.exists_. destruct (decide (is_Some (fs !! f))) as [Hs|Hs].
  2:{ rewrite bool_decide_false by done. simpl. split; [done|]. split; [done|].
      intros _. by apply eq_None_not_Some. }
  rewrite bool_decide_true by done.
  pose proof (Hfile Hs) as Hf.
  unfold Fs.unlink. apply is_file_Some in Hf as (n & Hn & Hk). rewrite Hn.
  rewrite bool_decide_true by done.
  assert (Hf : Fs.is_file fs f = true) by (apply is_file_Some; eauto).
  pose proof (below_nonempty _ _ Hb) as Hparts.
  match goal with |- context [remove_empty_dirs ?t ?r ?m ?d] =>
    destruct (remove_empty_dirs_wf t fs0 r m d) as (H1 & H2 & H3);
    [| | | | |pose proof (remove_empty_dirs_keeps t r m d) as (Hsub & _ & _)] end.
  - by apply wf_delete_file.
  - destruct (below_parent _ _ Hb) as [->|?]; auto.
  - apply is_dir_delete. split; [by apply parent_neq|]. by apply Hwf.
  - lia.
  - intros d' Hb' Hd' Hdir' Hc'.
    apply is_dir_delete in Hdir' as [_ Hdir'].
    apply Hne; try done.
    apply (children_delete_other fs f d'); [|done].
    intros [_ Heq]. done.
  - split; [done|]. split; [done|]. intros _.
    apply eq_None_not_Some. intros [x Hx].
    pose proof (lookup_weaken _ _ _ _ Hx Hsub) as Hx'.
    by rewrite lookup_delete_eq in Hx'.
Qed.

Lemma is_file_weaken (fs fs0 : FS) f :
  fs ⊆ fs0 → Fs.is_file fs0 f = true → is_Some (fs !! f) → Fs.is_file fs f = true.
Proof.
  intros Hsub Hf [x Hx]. pose proof (lookup_weaken _ _ _ _ Hx Hsub) as Hx'.
  apply is_file_Some in Hf as (n & Hn & Hk). apply is_file_Some.
  exists x. split; [done|]. congruence.
Qed.

Lemma cleanup_loop_wf lib cfg (fs0 : FS) order : ∀ fs : FS,
  well_formed (target_dir cfg) fs →
  no_new_empty_dir (target_dir cfg) fs0 fs →
  fs ⊆ fs0 →
  (∀ f, f ∈ order → Fs.below (target_dir cfg) f ∧ Fs.is_file fs0 f = true) →
  well_formed (target_dir cfg) (cleanup_loop lib cfg order fs) ∧
  no_new_empty_dir (target_dir cfg) fs0 (cleanup_loop lib cfg order fs) ∧
  (∀ f, f ∈ order → ignored lib cfg f = false →
        cleanup_loop lib cfg order fs !! f = None).
Proof.
  induction order as [|f order IH]; intros fs Hwf Hne Hsub Hall; simpl.
  { split; [done|]. split; [done|]. intros f Hf. by apply elem_of_nil in Hf. }
  destruct (Hall f ltac:(left)) as [Hb Hf].
  destruct (cleanup_file_wf lib cfg fs0 fs f Hwf Hne Hb) as (H1 & H2 & H3).
  { by apply (is_file_weaken fs fs0). }
  pose proof (cleanup_file_keeps lib cfg fs f) as (Hsub1 & _ & _).
  destruct (IH (cleanup_file lib cfg fs f).1 H1 H2) as (H4 & H5 & H6).
  { by etrans. }
  { intros g Hg. apply Hall. by right. }
  split; [done|]. split; [done|].
  intros g Hg Hi. apply elem_of_cons in Hg as [->|Hg]; [|by apply H6].
  apply eq_None_not_Some. intros [x Hx].
  pose proof (lookup_weaken _ _ _ _ Hx (cleanup_loop_subseteq lib cfg order _)) as Hx'.
  rewrite (H3 Hi) in Hx'. done.
Qed.

Lemma elem_of_list_filter_bool {A} (f : A → bool) (l : list A) x :
  x ∈ List.filter f l ↔ x ∈ l ∧ f x = true.
Proof. rewrite !list_elem_of_In. apply filter_In. Qed.

(** The files the loop may run over, in a well-formed tree with a
    directory for target. *)
Lemma all_local_files_spec cfg (fs : FS) :
  Fs.is_dir fs (target_dir cfg) = true →
  ∃ all, all_local_files cfg fs = Ok all ∧
    ∀ f, f ∈ all ↔
         Fs.is_file fs f = true ∧
         if flatten_mode cfg then Fs.child_of (target_dir cfg) f
         else Fs.below (target_dir cfg) f.
Proof.
  intros Hdir. unfold all_local_files.
  destruct (flatten_mode cfg).
  - rewrite (iterdir_dir _ _ Hdir). eexists. split; [done|]. intros f.
    rewrite elem_of_list_filter_bool, elem_of_children.
    split; [tauto|]. intros [Hf Hc]. split; [|done]. split; [|done].
    apply is_file_Some in Hf as (n & -> & _). by eexists.
  - unfold Fs.rglob. rewrite Hdir. eexists. split; [done|]. intros f.
    rewrite elem_of_list_filter_bool, elem_of_descendants.
    split; [tauto|]. intros [Hf Hc]. split; [|done]. split; [|done].
    apply is_file_Some in Hf as (n & -> & _). by eexists.
Qed.

Lemma well_formed_checked target (fs : FS) :
  well_formed_check target fs = true → well_formed target fs.
Proof.
  unfold well_formed_check. rewrite forallb_forall. intros H q Hq Hb.
  specialize (H q). rewrite <- list_elem_of_In, elem_of_elements, elem_of_dom in H.
  specialize (H Hq). by destruct (decide (Fs.below target q)).
Qed.

(** C5: in a well-formed local tree, a regular file under the target
    (an entry of the target in flatten mode, anywhere below it
    otherwise) that is not in [processed_local_paths] and whose name the
    ignore pattern does not match is gone after
    [__cleanup_local_files]; every directory between the target and the
    file is either gone or still has an entry; the target itself is
    untouched; and what remains is still a tree, so no directory with
    an entry left was removed. *)
Theorem C5_unprocessed_files_and_empty_dirs_removed
    lib cfg processed order (fs : FS) p :
  well_formed (target_dir cfg) fs →
  iterates (deletion_set cfg processed fs) order →
  Fs.is_file fs p = true →
  (if flatten_mode cfg then Fs.child_of (target_dir cfg) p
   else Fs.below (target_dir cfg) p) →
  p ∉ processed →
  ignored lib cfg p = false →
  ∃ fs' : FS,
    cleanup_local_files lib cfg processed order fs = Ok fs' ∧
    fs' !! p = None ∧
    (∀ d, Fs.below (target_dir cfg) d → Fs.below d p →
          is_Some (fs' !! d) → Fs.children fs' d ≠ []) ∧
    fs' !! target_dir cfg = fs !! target_dir cfg ∧
    well_formed (target_dir cfg) fs'.
Proof.
  intros Hwf Hit Hf Hloc Hnp Hign.
  assert (Hb : Fs.below (target_dir cfg) p).
  { destruct (flatten_mode cfg); [by apply child_below|done]. }
  assert (Hp : is_Some (fs !! p)).
  { apply is_file_Some in Hf as (n & -> & _). by eexists. }
  pose proof (target_is_dir _ _ _ Hwf Hp Hb) as Hdir.
  destruct (all_local_files_spec cfg fs Hdir) as (all & Hall & Hspec).
  assert (Hord : ∀ f, f ∈ order →
            Fs.below (target_dir cfg) f ∧ Fs.is_file fs f = true).
  { intros f Hfo. apply (iterates_deletion_set _ _ _ _ _ _ Hall Hit) in Hfo as [Hfa _].
    apply Hspec in Hfa as [Hff Hfl]. split; [|done].
    destruct (flatten_mode cfg); [by apply child_below|done]. }
  assert (Hpo : p ∈ order).
  { apply (iterates_deletion_set _ _ _ _ _ _ Hall Hit). split; [|done].
    apply Hspec. done. }
  destruct (cleanup_loop_wf lib cfg fs order fs Hwf) as (H1 & H2 & H3);
    [by intros d _ _ ?|done|done|].
  exists (cleanup_loop lib cfg order fs).
  split; [unfold cleanup_local_files; by rewrite Hall|].
  split; [by apply H3|]. split; [|split; [|done]].
  - intros d Hd Hdp [x Hx] Hc.
    pose proof (lookup_weaken _ _ _ _ Hx (cleanup_loop_subseteq lib cfg order fs)) as Hx'.
    pose proof (ancestors_are_dirs _ _ _ d Hwf Hp Hb Hdp (or_intror Hd)) as Hdd.
    assert (Hdd' : Fs.is_dir (cleanup_loop lib cfg order fs) d = true).
    { apply is_dir_Some in Hdd as (n & Hn & Hk). apply is_dir_Some.
      exists x. split; [done|]. congruence. }
    pose proof (H2 d Hd Hdd' Hc) as Hc0. rewrite children_nil in Hc0.
    destruct (below_via_child d p Hdp) as (c & Hcd & Hcp).
    apply (Hc0 c); [|done].
    destruct Hcp as [->|Hcp]; [done|].
    assert (Hcc : Fs.is_dir fs c = true).
    { apply (ancestors_are_dirs _ _ p c Hwf Hp Hb Hcp). right.
      eapply below_trans; [exact Hd|]. by apply child_below. }
    apply is_dir_Some in Hcc as (n & -> & _). by eexists.
  - apply cleanup_loop_target. intros Ht. apply Hord in Ht as [Ht _].
    by eapply below_irrefl.
Qed.

Lemma C4_witness :
  match cleanup_local_files Scenario.lib0 Scenario.cfg0
          {[Scenario.out_file "keep.strm"]} [Scenario.gone] Scenario.fs_tree with
  | Ok fs' => fs' !! Scenario.out_file "keep.strm" = Some (file_node 1 1)
  | Raise _ => True
  end.
Proof.
  apply (C4_processed_files_survive_cleanup Scenario.lib0 Scenario.cfg0
           {[Scenario.out_file "keep.strm"]} [Scenario.gone] Scenario.fs_tree
           (Scenario.out_file "keep.strm") (file_node 1 1)).
  - vm_compute. reflexivity.
  - apply elem_of_singleton. reflexivity.
  - reflexivity.
  - reflexivity.
Defined.

Lemma C5_witness :
  ∃ fs' : FS,
    cleanup_local_files Scenario.lib0 Scenario.cfg0
      {[Scenario.out_file "keep.strm"]} [Scenario.gone] Scenario.fs_tree = Ok fs' ∧
    fs' !! Scenario.gone = None.
Proof.
  destruct (C5_unprocessed_files_and_empty_dirs_removed Scenario.lib0 Scenario.cfg0
              {[Scenario.out_file "keep.strm"]} [Scenario.gone] Scenario.fs_tree
              Scenario.gone) as (fs' & H1 & H2 & _).
  - apply well_formed_checked. vm_compute. reflexivity.
  - vm_compute. reflexivity.
  - reflexivity.
  - vm_compute. split; [done|]. split; [|done]. by exists ["old"; "a"; "gone.strm"].
  - intros H. apply elem_of_singleton in H. discriminate H.
  - reflexivity.
  - exists fs'. split; assumption.
Defined.

(** The same run of the reconciler, evaluated: the orphan and the
    directory it leaves empty are removed, the directory above still
    has an entry and stays. *)
Example cleanup_evaluated :
  cleanup_local_files Scenario.lib0 Scenario.cfg0
    {[Scenario.out_file "keep.strm"]} [Scenario.gone] Scenario.fs_tree
  = Ok ({[ Scenario.out := dir_node 0;
           Scenario.out_file "keep.strm" := file_node 1 1;
           mkPath true ["out"; "old"] := dir_node 0;
           mkPath true ["out"; "old"; "b"] := dir_node 0 ]} : FS).
Proof. vm_compute. reflexivity. Qed.

(** ** The shape of the steps of a run *)

Import Run.

Lemma reachable_ind lib cfg s0 (P : state → Prop) :
  P s0 →
  (∀ l s s', P s → exec lib cfg l s = Some s' → P s') →
  ∀ s, reachable lib cfg s0 s → P s.
Proof.
  intros H0 Hstep s [ls Hls]. revert s0 H0 Hls.
  induction ls as [|l ls IH]; simpl; intros s0 H0 Hls.
  - by injection Hls as <-.
  - destruct (exec lib cfg l s0) as [s1|] eqn:E; [|done].
    apply (IH s1); [by eapply Hstep|done].
Qed.

Lemma reachable_step lib cfg s0 s l s' :
  reachable lib cfg s0 s → exec lib cfg l s = Some s' → reachable lib cfg s0 s'.
Proof.
  intros [ls Hls] Hl. exists (ls ++ [l])%list. revert s0 Hls.
  induction ls as [|k ls IH]; simpl; intros s0 Hls.
  - injection Hls as ->. by rewrite Hl.
  - destruct (exec lib cfg k s0) as [s1|]; [|done]. by apply IH.
Qed.

(** A step of a task either moves the task along [__file_processer] or
    fails it, in which case the group is aborted. *)
Lemma exec_task_shape lib cfg i r s s' :
  exec_task lib cfg i r s = Some s' →
  ∃ t ops,
    st_main s = Running ops ∧ st_tasks s !! i = Some t ∧ st_self s' = st_self s ∧
    ((∃ x, task_next cfg (st_self s) t x ∧
           st_tasks s' = <[i := set_tstate x t]> (st_tasks s) ∧
           st_main s' = Running ops) ∨
     (∃ e, unfinished (t_state t) = true ∧
           st_tasks s' = map cancel (<[i := set_tstate (Failed e) t]> (st_tasks s)) ∧
           st_main s' = Raised e ∧ st_fs s' = st_fs s)).
Proof.
  unfold exec_task. intros H.
  destruct (st_main s) as [|ops| |] eqn:Hm; try done.
  destruct (st_tasks s !! i) as [t|] eqn:Ht; [|done].
  exists t, ops. split; [done|]. split; [done|].
  assert (Hfail : ∀ e s0, st_self s0 = st_self s → st_tasks s0 = st_tasks s →
            st_fs s0 = st_fs s → unfinished (t_state t) = true →
            st_self (fail_task i t e s0) = st_self s ∧
            ((∃ x, task_next cfg (st_self s) t x ∧
                   st_tasks (fail_task i t e s0) = <[i := set_tstate x t]> (st_tasks s) ∧
                   st_main (fail_task i t e s0) = Running ops) ∨
             (∃ e', unfinished (t_state t) = true ∧
                   st_tasks (fail_task i t e s0)
                   = map cancel (<[i := set_tstate (Failed e') t]> (st_tasks s)) ∧
                   st_main (fail_task i t e s0) = Raised e' ∧
                   st_fs (fail_task i t e s0) = st_fs s))).
  { intros e s0 H1 H2 H3 H4. split; [done|]. right. exists e. simpl.
    rewrite H2. done. }
  assert (Hmove : ∀ x s0, st_self s0 = st_self s → st_tasks s0 = st_tasks s →
            st_main s0 = Running ops → task_next cfg (st_self s) t x →
            st_self (move_task i t x s0) = st_self s ∧
            ((∃ x', task_next cfg (st_self s) t x' ∧
                   st_tasks (move_task i t x s0) = <[i := set_tstate x' t]> (st_tasks s) ∧
                   st_main (move_task i t x s0) = Running ops) ∨
             (∃ e', unfinished (t_state t) = true ∧
                   st_tasks (move_task i t x s0)
                   = map cancel (<[i := set_tstate (Failed e') t]> (st_tasks s)) ∧
                   st_main (move_task i t x s0) = Raised e' ∧
                   st_fs (move_task i t x s0) = st_fs s))).
  { intros x s0 H1 H2 H3 H4. split; [done|]. left. exists x. simpl.
    rewrite H2. done. }
  destruct (t_state t) as [|lp c|lp c|lp|lp| | |] eqn:Hst; try done.
  - destruct (self_full_path (st_self s)) as [full|] eqn:Hfp.
    2:{ injection H as <-. by apply Hfail. }
    destruct (get_local_path cfg (t_path t) full) as [lp|e] eqn:Hlp.
    2:{ injection H as <-. by apply Hfail. }
    destruct (content lib (mode (st_self s)) (t_path t)) as [c|e].
    2:{ injection H as <-. by apply Hfail. }
    injection H as <-. apply Hmove; try done. by eapply next_start.
  - destruct r as [mtime sz|e].
    2:{ injection H as <-. by apply Hfail. }
    destruct (mkdir_parents _ _ _) as [fs|e].
    2:{ injection H as <-. by apply Hfail. }
    destruct (String.eqb_spec (PurePath.suffix lp) ".strm") as [Hs|Hs].
    + injection H as <-. apply Hmove; try done. by eapply next_write.
    + injection H as <-. unfold enter_download. simpl.
      destruct (st_downloaders s).
      * apply Hmove; try done. by eapply next_wait.
      * split; [done|]. left. exists (Downloading lp). split; [|done].
        by eapply next_download.
  - destruct r as [mtime sz|e].
    2:{ injection H as <-. by apply Hfail. }
    destruct (Fs.is_dir (st_fs s) lp).
    { injection H as <-. by apply Hfail. }
    injection H as <-. split; [done|]. left. exists Done. split; [|done].
    by eapply next_written.
  - destruct (st_downloaders s) as [|n] eqn:Hn; [done|].
    injection H as <-. unfold enter_download. rewrite Hn.
    split; [done|]. left. exists (Downloading lp). split; [|done].
    by eapply next_slot.
  - destruct r as [mtime sz|e].
    2:{ injection H as <-. by apply Hfail. }
    simpl in H. destruct (Fs.is_dir (st_fs s) lp).
    { injection H as <-. by apply Hfail. }
    injection H as <-. split; [done|]. left. exists Done. split; [|done].
    by eapply next_downloaded.
Qed.

(** The four kinds of step of the coroutine of [run]. *)
Lemma exec_main_cases lib cfg s s' :
  exec_main lib cfg s = Some s' →
  (∃ ops n, st_main s = Acquire ops ∧ st_workers s = S n ∧
            s' = set_main (Running ops) (set_workers n s)) ∨
  (∃ o ops, st_main s = Running (o :: ops) ∧
            (o = OpSleep ∨ ∃ d, o = OpList d true) ∧
            ready_queue_empty s = true ∧ s' = set_main (Running ops) s) ∨
  (∃ d ops, st_main s = Running (OpList d false :: ops) ∧
            ready_queue_empty s = true ∧ s' = abort RuntimeError s) ∨
  (∃ path full detail ops,
      st_main s = Running (OpFilter path full detail :: ops)).
Proof.
  intros H. unfold exec_main in H.
  destruct (st_main s) as [ops|[|[d ok| |path full detail] ops]| |] eqn:Hm; try done.
  - left. destruct (st_workers s) as [|n]; [done|]. injection H as <-. eauto.
  - destruct (ready_queue_empty s) eqn:Hq; [|done]. destruct ok.
    + right; left. injection H as <-. exists (OpList d true), ops. eauto 10.
    + right; right; left. injection H as <-. eauto 10.
  - destruct (ready_queue_empty s) eqn:Hq; [|done].
    right; left. injection H as <-. exists OpSleep, ops. eauto 10.
  - right; right; right. eauto 10.
Qed.

Lemma task_next_settled cfg self t x : task_next cfg self t x → settled x.
Proof. by intros []. Qed.

Lemma task_next_not_created cfg self t x : task_next cfg self t x → is_created x = false.
Proof. by intros []. Qed.

Lemma task_next_unfinished cfg self t x :
  task_next cfg self t x → unfinished (t_state t) = true.
Proof. intros []; by match goal with H : t_state t = _ |- _ => rewrite H end. Qed.

Lemma all_done_Forall (l : list task) :
  forallb (fun t => is_done (t_state t)) l = true →
  Forall (fun t => t_state t = Done) l.
Proof.
  rewrite forallb_forall, Forall_forall. intros H t Ht.
  specialize (H t). rewrite <- list_elem_of_In in H. specialize (H Ht).
  by destruct (t_state t).
Qed.

Lemma exec_finish_shape lib cfg order s s' :
  exec_finish lib cfg order s = Some s' →
  st_main s = Running [] ∧
  Forall (fun t => t_state t = Done) (st_tasks s) ∧
  st_tasks s' = st_tasks s ∧ st_self s' = st_self s ∧
  (st_main s' = Returned ∨ ∃ e, st_main s' = Raised e).
Proof.
  unfold exec_finish. intros H.
  destruct (st_main s) as [|[|]| |]; try done.
  destruct (forallb _ _) eqn:Hd; [|done]. apply all_done_Forall in Hd.
  split; [done|]. split; [done|].
  case_all; injection H as <-; simpl; eauto 10.
Qed.

Lemma cancel_all_finished (l : list task) :
  Forall (fun t => unfinished (t_state t) = false) (map cancel l).
Proof.
  apply Forall_forall. intros u Hu.
  apply list_elem_of_fmap in Hu as (u0 & -> & _). apply cancel_finished.
Qed.

(** The status of the tasks goes with the status of [run] all along. *)
Lemma tasks_match_main_step lib cfg l s s' :
  tasks_match_main s → exec lib cfg l s = Some s' → tasks_match_main s'.
Proof.
  intros Hinv H. destruct l as [|i r|order]; simpl in H.
  - destruct (exec_main_cases _ _ _ _ H)
      as [(ops & n & Hm & _ & ->)|[(o & ops & Hm & _ & _ & ->)|
          [(d & ops & Hm & _ & ->)|(path & full & detail & ops & Hm)]]].
    + unfold tasks_match_main in *. rewrite Hm in Hinv. simpl. by rewrite Hinv.
    + unfold tasks_match_main in *. by rewrite Hm in Hinv.
    + unfold tasks_match_main. simpl. apply cancel_all_finished.
    + rewrite (exec_main_filter _ _ _ _ _ _ _ Hm) in H. simpl in H.
      unfold tasks_match_main in Hinv. rewrite Hm in Hinv.
      assert (Hnew : ∀ p, Forall (fun t => settled (t_state t))
                             (st_tasks s ++ [new_task p path full])).
      { intros p. apply Forall_app. split; [done|]. by repeat constructor. }
      destruct (filter _ _ _ _ _ _).1 as [[]|e].
      * destruct (is_detail _).
        -- destruct detail as [d|]; injection H as <-.
           ++ unfold tasks_match_main. simpl. apply Hnew.
           ++ unfold tasks_match_main. simpl. apply cancel_all_finished.
        -- injection H as <-. unfold tasks_match_main. simpl. apply Hnew.
      * injection H as <-. by unfold tasks_match_main.
      * injection H as <-. unfold tasks_match_main. simpl.
        apply cancel_all_finished.
  - destruct (exec_task_shape _ _ _ _ _ _ H)
      as (t & ops & Hm & Ht & _ & [(x & Hx & Hts & Hm')|(e & _ & Hts & Hm' & _)]).
    + unfold tasks_match_main in *. rewrite Hm in Hinv. rewrite Hm', Hts.
      apply Forall_insert; [done|]. by eapply task_next_settled.
    + unfold tasks_match_main. rewrite Hm', Hts. apply cancel_all_finished.
  - destruct (exec_finish_shape _ _ _ _ _ H) as (Hm & Hd & Hts & _ & [Hm'|[e Hm']]).
    + unfold tasks_match_main. by rewrite Hm', Hts.
    + unfold tasks_match_main. rewrite Hm', Hts.
      eapply Forall_impl; [exact Hd|]. by intros t ->.
Qed.

Lemma tasks_match_main_reachable lib cfg fs remote s :
  reachable lib cfg (start cfg fs remote) s → tasks_match_main s.
Proof.
  apply (reachable_ind lib cfg _ tasks_match_main).
  - reflexivity.
  - intros l s1 s2. apply tasks_match_main_step.
Qed.







(** C3, at [max_workers = 1] with two media files in [/media]: after
    both entries are dispatched two tasks of the group are in flight.
    The semaphore built from [max_workers] is taken once, by [run], for
    the whole task group; creating a task takes nothing from it. *)
Theorem C3_two_tasks_in_flight_with_one_worker :
  ∃ s,
    execs Scenario.lib0 Scenario.cfg0 Scenario.dispatch2
      (start Scenario.cfg0 Scenario.fs_empty (Scenario.remote2 "a.mp4" "b.mp4"))
    = Some s ∧
    max_workers Scenario.cfg0 = 1%nat ∧
    in_flight s = 2%nat ∧
    st_workers s = 0%nat.
Proof. eexists. split; [vm_compute; reflexivity|]. by vm_compute. Qed.

(** C2 as stated fails in its second half.  [/media] holds [a.mp4] and
    [a.mkv]; both are accepted (the pointer file does not exist yet when
    the second one is filtered), both map to [/out/a.strm], and both
    tasks are about to write it at the same time. *)
Lemma C2_counterexample :
  ∃ s,
    execs Scenario.lib0 Scenario.cfg0 Scenario.both_mkdir
      (start Scenario.cfg0 Scenario.fs_empty (Scenario.remote2 "a.mp4" "a.mkv"))
    = Some s ∧
    t_state <$> st_tasks s
    = [AwaitWrite (Scenario.out_file "a.strm") "http://host/d/media/a.mp4";
       AwaitWrite (Scenario.out_file "a.strm") "http://host/d/media/a.mkv"] ∧
    t_full <$> st_tasks s = ["/media/a.mp4"; "/media/a.mkv"].
Proof. eexists. split; [vm_compute; reflexivity|]. by vm_compute. Qed.

(** ** Tasks write where the filter recorded *)

Import Pipeline.

(** An induction principle that reaches the entries of a listing. *)
Lemma rnode_nested_ind (P : rnode → Prop) :
  (∀ e d l, match l with Some cs => Forall P cs | None => True end →
            P (RNode e d l)) →
  ∀ n, P n.
Proof.
  intros H.
  exact (fix go (n : rnode) : P n :=
    match n with
    | RNode e d l =>
        H e d l
          match l return match l with Some cs => Forall P cs | None => True end with
          | Some cs =>
              (fix gos (cs : list rnode) : Forall P cs :=
                 match cs with
                 | [] => @List.Forall_nil _ P
                 | c :: cs' => @List.Forall_cons _ P c cs' (go c) (gos cs')
                 end) cs
          | None => I
          end
    end).
Qed.

Lemma guarded_dir_filter b path full detail rest :
  is_dir path = true →
  guarded b (OpFilter path full detail :: rest) = guarded b rest.
Proof. intros H. simpl. by rewrite H. Qed.

Lemma flat_map_guarded (f : rnode → list op) cs rest :
  Forall (fun n => ∀ b rest, (∀ b', guarded b' rest = true) →
                             guarded b (f n ++ rest)%list = true) cs →
  (∀ b', guarded b' rest = true) →
  ∀ b, guarded b (flat_map f cs ++ rest)%list = true.
Proof.
  induction 1 as [|c cs Hc _ IH]; intros Hrest b; simpl; [done|].
  rewrite <- app_assoc. apply Hc. by apply IH.
Qed.

(** In the traversal of [iter_path] every filter call on a file comes
    right after [await sleep]. *)
Lemma iter_entry_guarded n : ∀ dir b rest,
  (∀ b', guarded b' rest = true) →
  guarded b (iter_entry dir n ++ rest)%list = true.
Proof.
  induction n as [path detail listing IH] using rnode_nested_ind.
  intros dir b rest Hrest. simpl.
  destruct (is_dir path) eqn:Hd.
  - destruct listing as [cs|]; simpl.
    + rewrite <- !app_assoc. apply flat_map_guarded.
      * eapply Forall_impl; [exact IH|]. intros n Hn b0 rest0. apply Hn.
      * intros b'. simpl. by rewrite Hd.
    + by rewrite Hd.
  - simpl. by rewrite Hd.
Qed.

Lemma iter_path_guarded dir remote b : guarded b (iter_path dir remote) = true.
Proof.
  destruct remote as [cs|]; simpl; [|done].
  rewrite <- (app_nil_r (flat_map _ _)). apply flat_map_guarded; [|done].
  apply Forall_forall. intros n _ b0 rest. apply iter_entry_guarded.
Qed.

Lemma get_local_path_agree cfg p d full :
  name d = name p → is_dir d = is_dir p →
  get_local_path cfg d full = get_local_path cfg p full.
Proof.
  intros Hn Hd. unfold get_local_path, local_base, AlistPathM.suffix.
  by rewrite Hn, Hd.
Qed.

Lemma ready_queue_empty_Forall s :
  ready_queue_empty s = true ↔
  Forall (fun t => is_created (t_state t) = false) (st_tasks s).
Proof.
  unfold ready_queue_empty. rewrite forallb_forall, Forall_forall.
  split; intros H t Ht.
  - apply negb_true_iff, H. by apply list_elem_of_In.
  - apply negb_true_iff, H. by apply list_elem_of_In.
Qed.

Lemma task_ok_mono cfg self self' t :
  task_ok cfg self t →
  processed_local_paths self ⊆ processed_local_paths self' →
  is_created (t_state t) = false →
  task_ok cfg self' t.
Proof.
  intros (lp & H1 & H2 & H3 & H4 & _) Hsub Hc. exists lp.
  repeat split; try done.
  - by apply Hsub.
  - intros Hs. by rewrite Hs in Hc.
Qed.

Lemma task_ok_cancel cfg self t : task_ok cfg self t → task_ok cfg self (cancel t).
Proof.
  intros (lp & H1 & H2 & H3 & H4 & H5). unfold cancel.
  destruct (unfinished (t_state t)); [|by exists lp].
  exists lp. by repeat split.
Qed.

Lemma task_ok_failed cfg self t e :
  task_ok cfg self t → task_ok cfg self (set_tstate (Failed e) t).
Proof. intros (lp & H1 & H2 & H3 & H4 & H5). exists lp. by repeat split. Qed.

Lemma task_ok_next cfg self t x :
  task_ok cfg self t → task_next cfg self t x → task_ok cfg self (set_tstate x t).
Proof.
  intros (lp & H1 & H2 & H3 & H4 & H5) Hx. exists lp.
  split; [done|]. split; [done|]. split; [done|]. split.
  - intros lp' Hw. destruct Hx as [full lp0 c Hs Hf Hl|lp0 c Hs _|lp0 c Hs _
                                  |lp0 c Hs _|lp0 Hs|lp0 c Hs|lp0 Hs];
      simpl in Hw; try discriminate Hw; injection Hw as <-.
    + rewrite (H5 Hs) in Hf. injection Hf as <-. congruence.
    + apply H4. by rewrite Hs.
    + apply H4. by rewrite Hs.
    + apply H4. by rewrite Hs.
    + apply H4. by rewrite Hs.
  - intros Hc. simpl in Hc. apply task_next_not_created in Hx. by rewrite Hc in Hx.
Qed.

Lemma forallb_tail {A} (f : A → bool) x l :
  forallb f (x :: l) = true → forallb f l = true.
Proof. simpl. by intros [_ ?]%andb_true_iff. Qed.

Lemma pipeline_inv_step lib cfg l s s' :
  pipeline_inv cfg s → exec lib cfg l s = Some s' → pipeline_inv cfg s'.
Proof.
  intros [Hts Hops] H. destruct l as [|i r|order]; simpl in H.
  - destruct (exec_main_cases _ _ _ _ H)
      as [(ops & n & Hm & _ & ->)|[(o & ops & Hm & Ho & Hq & ->)|
          [(d & ops & Hm & _ & ->)|(path & full & detail & ops & Hm)]]].
    + rewrite Hm in Hops. split; [done|]. exact Hops.
    + rewrite Hm in Hops. destruct Hops as (Hda & b & Hg & Hb).
      split; [done|]. simpl. split; [by eapply forallb_tail|].
      exists true. split; [|done]. by destruct Ho as [->|[d ->]].
    + split; [|done]. simpl. rewrite Forall_fmap.
      eapply Forall_impl; [exact Hts|]. intros t. apply task_ok_cancel.
    + rewrite Hm in Hops. destruct Hops as (Hda & b & Hg & Hb).
      rewrite (exec_main_filter _ _ _ _ _ _ _ Hm) in H. simpl in H.
      destruct (is_dir path) eqn:Hd.
      { rewrite (filter_dir _ _ _ _ _ _ Hd) in H. simpl in H. injection H as <-.
        split; [done|]. simpl. split; [by eapply forallb_tail|].
        exists b. split; [|done]. by rewrite <- Hg, guarded_dir_filter. }
      simpl in Hg. rewrite Hd in Hg. apply andb_true_iff in Hg as [-> Hg].
      specialize (Hb eq_refl).
      pose proof (filter_processed_mono lib cfg (st_fs s) (st_self s) path full) as Hmono.
      assert (Hts' : Forall (task_ok cfg (filter lib cfg (st_fs s) (st_self s) path full).2)
                       (st_tasks s)).
      { apply ready_queue_empty_Forall in Hb. rewrite Forall_forall in Hts, Hb |- *.
        intros t Ht. eapply task_ok_mono; eauto. }
      assert (Hnext : ops_ok
                (set_main (Running ops)
                   (set_self (filter lib cfg (st_fs s) (st_self s) path full).2 s)) ops).
      { split; [by eapply forallb_tail|]. exists false. by split. }
      assert (Hcancel : Forall (task_ok cfg (filter lib cfg (st_fs s) (st_self s) path full).2)
                          (map cancel (st_tasks s))).
      { rewrite Forall_fmap. eapply Forall_impl; [exact Hts'|].
        intros t. apply task_ok_cancel. }
      destruct (filter lib cfg (st_fs s) (st_self s) path full).1 as [[]|e] eqn:Hr.
      * destruct (filter_accepts _ _ _ _ _ _ Hr) as (_ & lp & Hlp & Hself).
        assert (Hnew : ∀ p, get_local_path cfg p full = Ok lp →
                  Forall (task_ok cfg (filter lib cfg (st_fs s) (st_self s) path full).2)
                    (st_tasks s ++ [new_task p path full])).
        { intros p Hp. apply Forall_app. split; [done|]. constructor; [|done].
          exists lp. simpl. rewrite Hself. simpl.
          repeat split; try done. set_solver. }
        assert (Hnops : ∀ tasks evs,
                  ops_ok {| st_self := (filter lib cfg (st_fs s) (st_self s) path full).2;
                            st_fs := st_fs s; st_workers := st_workers s;
                            st_downloaders := st_downloaders s; st_tasks := tasks;
                            st_main := Running ops; st_events := evs |} ops).
        { intros tasks evs. split; [by eapply forallb_tail|]. exists false. by split. }
        destruct (is_detail _).
        -- destruct detail as [d|]; injection H as <-.
           ++ split; [|apply Hnops]. simpl. apply Hnew.
              simpl in Hda. apply andb_true_iff in Hda as [Hda _].
              apply andb_true_iff in Hda as [Hn Hk].
              apply String.eqb_eq in Hn. apply Bool.eqb_prop in Hk.
              by rewrite (get_local_path_agree cfg path d full Hn Hk).
           ++ split; [|done]. exact Hcancel.
        -- injection H as <-. split; [|apply Hnops]. simpl. by apply Hnew.
      * injection H as <-. split; [exact Hts'|exact Hnext].
      * injection H as <-. split; [|done]. exact Hcancel.
  - destruct (exec_task_shape _ _ _ _ _ _ H)
      as (t & ops & Hm & Ht & Hself & [(x & Hx & Htasks & Hm')|(e & _ & Htasks & Hm' & _)]).
    + rewrite Hm in Hops. destruct Hops as (Hda & b & Hg & Hb).
      pose proof (Forall_lookup_1 _ _ _ _ Hts Ht) as Hok.
      split.
      * rewrite Hself, Htasks. apply Forall_insert; [done|]. by apply task_ok_next.
      * rewrite Hm'. split; [done|]. exists b. split; [done|]. intros Hbt.
        apply ready_queue_empty_Forall. rewrite Htasks.
        apply Forall_insert; [by apply ready_queue_empty_Forall, Hb|].
        by eapply task_next_not_created.
    + split; [|by rewrite Hm'].
      rewrite Hself, Htasks, Forall_fmap.
      pose proof (Forall_lookup_1 _ _ _ _ Hts Ht) as Hok.
      assert (Hins : Forall (task_ok cfg (st_self s))
                       (<[i := set_tstate (Failed e) t]> (st_tasks s))).
      { apply Forall_insert; [done|]. by apply task_ok_failed. }
      eapply Forall_impl; [exact Hins|]. intros u. apply task_ok_cancel.
  - destruct (exec_finish_shape _ _ _ _ _ H) as (Hm & Hd & Htasks & Hself & Hm').
    split; [by rewrite Hself, Htasks|].
    by destruct Hm' as [->|[e ->]].
Qed.

Lemma pipeline_inv_reachable lib cfg fs remote s :
  forallb detail_agrees (iter_path (source_dir cfg) remote) = true →
  reachable lib cfg (start cfg fs remote) s → pipeline_inv cfg s.
Proof.
  intros Hda. apply (reachable_ind lib cfg _ (pipeline_inv cfg)).
  - split; [by constructor|]. simpl. split; [done|].
    exists true. split; [apply iter_path_guarded|done].
  - intros l s1 s2. apply pipeline_inv_step.
Qed.

(** [mkdir] adds directories only. *)
Lemma mkdir_from_files todo : ∀ (fs fs' : FS) anch done mtime q n,
  mkdir_from fs anch done todo mtime = Ok fs' →
  fs' !! q = Some n → n_kind n = KFile → fs !! q = Some n.
Proof.
  induction todo as [|c todo IH]; simpl; intros fs fs' anch done mtime q n H Hq Hk.
  - by injection H as <-.
  - destruct (fs !! mkPath anch (done ++ [c])) as [m|] eqn:Hm.
    + destruct (bool_decide (n_kind m = KDir)); [|done]. by eapply IH.
    + pose proof (IH _ _ _ _ _ _ _ H Hq Hk) as Hq'.
      destruct (decide (mkPath anch (done ++ [c]) = q)) as [<-|Hne].
      * rewrite lookup_insert_eq in Hq'. injection Hq' as <-. done.
      * by rewrite lookup_insert_ne in Hq'.
Qed.

Lemma enter_download_fs lib i t lp s :
  st_fs (enter_download lib i t lp s) = st_fs s.
Proof. unfold enter_download. by destruct (st_downloaders s). Qed.

(** A file that a step of a task creates or changes is at the path the
    task writes to. *)
Lemma exec_task_writes lib cfg i r s s' t q n :
  exec_task lib cfg i r s = Some s' → st_tasks s !! i = Some t →
  st_fs s' !! q = Some n → n_kind n = KFile → st_fs s !! q ≠ Some n →
  writes_to (t_state t) = Some q.
Proof.
  unfold exec_task. intros H Ht Hq Hk Hne. rewrite Ht in H.
  destruct (st_main s); try done.
  destruct (t_state t) as [|lp c|lp c|lp|lp| | |] eqn:Hst; try done.
  - case_all; injection H as <-; done.
  - destruct r as [mtime sz|e]; [|injection H as <-; done].
    destruct (mkdir_parents _ _ _) as [fs|e] eqn:Hmk; [|injection H as <-; done].
    assert (Hfs : st_fs s' = fs).
    { destruct (String.eqb _ _); injection H as <-; [done|].
      by rewrite enter_download_fs. }
    rewrite Hfs in Hq. destruct Hne.
    by eapply mkdir_from_files.
  - destruct r as [mtime sz|e]; [|injection H as <-; done].
    destruct (Fs.is_dir _ _); injection H as <-; [done|]. simpl in Hq.
    destruct (decide (lp = q)) as [->|Hlq]; [done|].
    by rewrite lookup_insert_ne in Hq.
  - destruct (st_downloaders s); [done|]. injection H as <-.
    by rewrite enter_download_fs in Hq.
  - destruct r as [mtime sz|e]; [|injection H as <-; done].
    simpl in H. destruct (Fs.is_dir _ _); injection H as <-; [done|]. simpl in Hq.
    destruct (decide (lp = q)) as [->|Hlq]; [done|].
    by rewrite lookup_insert_ne in Hq.
Qed.

(** C2, amended: the task of an accepted entry writes to the local
    path the filter recorded for that entry in [processed_local_paths]
    and to no other file ([__file_processer] maps the entry again with
    [self.full_path], which still holds the path of the entry when the
    task takes its first step; with detail fetching, the detail must
    name the entry that was listed).  Two tasks of a run write one and
    the same local path only when both their entries are mapped to it,
    which does happen. *)
Theorem C2_tasks_write_recorded_paths lib cfg fs remote s :
  forallb detail_agrees (iter_path (source_dir cfg) remote) = true →
  reachable lib cfg (start cfg fs remote) s →
  (∀ t, t ∈ st_tasks s →
     ∃ lp, get_local_path cfg (t_listed t) (t_full t) = Ok lp ∧
           lp ∈ processed_local_paths (st_self s) ∧
           ∀ lp', writes_to (t_state t) = Some lp' → lp' = lp) ∧
  (∀ i t r s' q n,
     st_tasks s !! i = Some t → exec lib cfg (LTask i r) s = Some s' →
     st_fs s' !! q = Some n → n_kind n = KFile → st_fs s !! q ≠ Some n →
     get_local_path cfg (t_listed t) (t_full t) = Ok q) ∧
  (∀ t u lp, t ∈ st_tasks s → u ∈ st_tasks s →
     writes_to (t_state t) = Some lp → writes_to (t_state u) = Some lp →
     get_local_path cfg (t_listed t) (t_full t) = Ok lp ∧
     get_local_path cfg (t_listed u) (t_full u) = Ok lp).
Proof.
  intros Hda Hr. destruct (pipeline_inv_reachable _ _ _ _ _ Hda Hr) as [Hts _].
  rewrite Forall_forall in Hts.
  assert (Hrec : ∀ t lp, t ∈ st_tasks s → writes_to (t_state t) = Some lp →
            get_local_path cfg (t_listed t) (t_full t) = Ok lp).
  { intros t lp Ht Hw. destruct (Hts t Ht) as (lp0 & H1 & _ & _ & H4 & _).
    by rewrite (H4 lp Hw). }
  split; [|split].
  - intros t Ht. destruct (Hts t Ht) as (lp & H1 & _ & H3 & H4 & _). eauto.
  - intros i t r s' q n Ht Hex Hq Hk Hne. simpl in Hex.
    apply Hrec; [by eapply list_elem_of_lookup_2|]. by eapply exec_task_writes.
  - intros t u lp Ht Hu Hwt Hwu. split; by apply Hrec.
Qed.

Lemma C2_witness :
  ∃ lp, get_local_path Scenario.cfg0
          (Scenario.entry "a.mp4" "2024-01-01T00:00:00") "/media/a.mp4" = Ok lp ∧
        lp ∈ processed_local_paths (st_self Scenario.one_created).
Proof.
  destruct (C2_tasks_write_recorded_paths Scenario.lib0 Scenario.cfg0 Scenario.fs_empty
              (Scenario.remote2 "a.mp4" "a.mkv") Scenario.one_created) as (H & _).
  - reflexivity.
  - exists (Scenario.mains 4). vm_compute. reflexivity.
  - destruct (H (new_task (Scenario.entry "a.mp4" "2024-01-01T00:00:00")
                   (Scenario.entry "a.mp4" "2024-01-01T00:00:00") "/media/a.mp4"))
      as (lp & Hlp & Hin & _).
    + apply list_elem_of_here.
    + by exists lp.
Defined.

(** ** The two semaphores *)

Lemma count_insert {A} (f : A → bool) (l : list A) : ∀ i x y,
  l !! i = Some x →
  (length (List.filter f (<[i := y]> l)) + (if f x then 1 else 0)
   = length (List.filter f l) + (if f y then 1 else 0))%nat.
Proof.
  induction l as [|a l IH]; intros i x y Hi; [done|].
  destruct i as [|i]; simpl in *.
  - injection Hi as ->. destruct (f x), (f y); simpl; lia.
  - specialize (IH i x y Hi). destruct (f a); simpl; lia.
Qed.

Lemma downloading_tasks s s0 :
  st_tasks s0 = st_tasks s → downloading s0 = downloading s.
Proof. unfold downloading. by intros ->. Qed.

Lemma downloading_move i t x s :
  st_tasks s !! i = Some t →
  (downloading (move_task i t x s) + slots (t_state t)
   = downloading s + slots x)%nat.
Proof.
  intros Ht. unfold downloading, move_task, slots. simpl.
  apply (count_insert (fun t => holds_slot (t_state t)) _ i t (set_tstate x t) Ht).
Qed.

Lemma downloading_cancelled (l : list task) :
  length (List.filter (fun t => holds_slot (t_state t)) (map cancel l)) = 0%nat.
Proof.
  induction l as [|t l IH]; simpl; [done|].
  assert (Hc : holds_slot (t_state (cancel t)) = false).
  { unfold cancel. by destruct (t_state t) eqn:E; simpl; rewrite ?E. }
  by rewrite Hc.
Qed.

Lemma downloading_abort e s : downloading (abort e s) = 0%nat.
Proof. unfold downloading. simpl. apply downloading_cancelled. Qed.

Lemma downloading_new s t tasks :
  tasks = (st_tasks s ++ [t])%list → t_state t = Created →
  downloading (set_tasks tasks s) = downloading s.
Proof.
  intros -> Hc. unfold downloading. simpl. rewrite List.filter_app, length_app. simpl.
  rewrite Hc. simpl. lia.
Qed.

(** The failing task gives back nothing but its own slot, which the
    cancelled tasks do as well. *)
Lemma slots_fail i t e s :
  st_tasks s !! i = Some t →
  (st_downloaders (fail_task i t e s) + downloading (fail_task i t e s)
   + slots (t_state t)
   = st_downloaders s + downloading s)%nat.
Proof.
  intros Ht. unfold fail_task. rewrite downloading_abort.
  pose proof (downloading_move i t (Failed e) s Ht) as Hmv.
  unfold abort, move_task in *. simpl in *.
  change (slots (Failed e)) with 0%nat in Hmv. lia.
Qed.

Lemma slots_move i t x s :
  st_tasks s !! i = Some t →
  (st_downloaders (move_task i t x s) + downloading (move_task i t x s)
   + slots (t_state t)
   = st_downloaders s + downloading s + slots x)%nat.
Proof.
  intros Ht. pose proof (downloading_move i t x s Ht) as Hmv.
  change (st_downloaders (move_task i t x s)) with (st_downloaders s). lia.
Qed.

Lemma slots_enter lib i t lp s :
  st_tasks s !! i = Some t →
  (st_downloaders (enter_download lib i t lp s)
   + downloading (enter_download lib i t lp s) + slots (t_state t)
   = st_downloaders s + downloading s)%nat.
Proof.
  intros Ht. unfold enter_download. destruct (st_downloaders s) as [|n] eqn:Hn.
  - pose proof (slots_move i t (WaitDownloader lp) s Ht) as H.
    change (slots (WaitDownloader lp)) with 0%nat in H. lia.
  - pose proof (slots_move i t (Downloading lp) (set_downloaders n s) Ht) as H.
    change (slots (Downloading lp)) with 1%nat in H.
    change (downloading (set_downloaders n s)) with (downloading s) in H.
    change (st_downloaders (set_downloaders n s)) with n in H.
    match goal with |- (st_downloaders (emit _ ?a) + downloading (emit _ ?a) + _ = _)%nat =>
      change (st_downloaders (emit _ a)) with (st_downloaders a);
      change (downloading (emit _ a)) with (downloading a) end.
    lia.
Qed.

(** The free download slots and the tasks that hold one add up to the
    same number before and after every step. *)
Lemma download_slots_step lib cfg l s s' :
  exec lib cfg l s = Some s' →
  (st_downloaders s' + downloading s' = st_downloaders s + downloading s)%nat.
Proof.
  intros H. destruct l as [|i r|order]; simpl in H.
  - destruct (exec_main_cases _ _ _ _ H)
      as [(ops & n & Hm & _ & ->)|[(o & ops & Hm & _ & _ & ->)|
          [(d & ops & Hm & _ & ->)|(path & full & detail & ops & Hm)]]]; try done.
    + rewrite downloading_abort. simpl. lia.
    + rewrite (exec_main_filter _ _ _ _ _ _ _ Hm) in H. simpl in H.
      case_all; injection H as <-; rewrite ?downloading_abort; simpl; try lia.
      all: unfold downloading; simpl; rewrite ?List.filter_app, ?length_app; simpl; lia.
  - unfold exec_task in H.
    destruct (st_main s); try done.
    destruct (st_tasks s !! i) as [t|] eqn:Ht; [|done].
    pose proof (slots_fail i t) as Hfail.
    pose proof (slots_move i t) as Hmove.
    pose proof (slots_enter lib i t) as Henter.
    destruct (t_state t) as [|lp c|lp c|lp|lp| | |] eqn:Hst; try done;
      cbv [slots holds_slot] in Hfail, Hmove, Henter.
    + case_all; injection H as <-.
      * specialize (Hmove (AwaitMkdir a a0) s Ht); cbv beta iota in Hmove. lia.
      * specialize (Hfail e s Ht). lia.
      * specialize (Hfail e s Ht). lia.
      * specialize (Hfail AttributeError s Ht). lia.
    + destruct r as [mtime sz|e].
      2:{ injection H as <-. specialize (Hfail e s Ht). lia. }
      destruct (mkdir_parents _ _ _) as [fs|e].
      2:{ injection H as <-. specialize (Hfail e s Ht). lia. }
      destruct (String.eqb _ _); injection H as <-.
      * specialize (Hmove (AwaitWrite lp c) (set_fs fs s) Ht); cbv beta iota in Hmove.
        change (downloading (set_fs fs s)) with (downloading s) in Hmove.
        change (st_downloaders (set_fs fs s)) with (st_downloaders s) in Hmove. lia.
      * specialize (Henter lp (set_fs fs s) Ht).
        change (downloading (set_fs fs s)) with (downloading s) in Henter.
        change (st_downloaders (set_fs fs s)) with (st_downloaders s) in Henter. lia.
    + destruct r as [mtime sz|e].
      2:{ injection H as <-. specialize (Hfail e s Ht). lia. }
      destruct (Fs.is_dir _ _); injection H as <-.
      * specialize (Hfail OSError s Ht). lia.
      * match goal with |- context [set_fs ?f s] =>
          specialize (Hmove Done (set_fs f s) Ht); cbv beta iota in Hmove;
          change (downloading (set_fs f s)) with (downloading s) in Hmove;
          change (st_downloaders (set_fs f s)) with (st_downloaders s) in Hmove end.
        match goal with |- (st_downloaders (emit _ ?a) + downloading (emit _ ?a) = _)%nat =>
          change (st_downloaders (emit _ a)) with (st_downloaders a);
          change (downloading (emit _ a)) with (downloading a) end.
        lia.
    + destruct (st_downloaders s) as [|n] eqn:Hn; [done|]. injection H as <-.
      specialize (Henter lp s Ht). lia.
    + cbv zeta in H. destruct r as [mtime sz|e].
      2:{ injection H as <-.
          specialize (Hfail e (set_downloaders (S (st_downloaders s)) s) Ht).
          change (downloading (set_downloaders (S (st_downloaders s)) s))
            with (downloading s) in Hfail.
          change (st_downloaders (set_downloaders (S (st_downloaders s)) s))
            with (S (st_downloaders s)) in Hfail. lia. }
      destruct (Fs.is_dir _ _); injection H as <-.
      * specialize (Hfail OSError (set_downloaders (S (st_downloaders s)) s) Ht).
        change (downloading (set_downloaders (S (st_downloaders s)) s))
          with (downloading s) in Hfail.
        change (st_downloaders (set_downloaders (S (st_downloaders s)) s))
          with (S (st_downloaders s)) in Hfail. lia.
      * match goal with |- context [set_fs ?f ?s1] =>
          specialize (Hmove Done (set_fs f s1) Ht); cbv beta iota in Hmove;
          change (downloading (set_fs f s1)) with (downloading s) in Hmove;
          change (st_downloaders (set_fs f s1)) with (S (st_downloaders s)) in Hmove end.
        lia.
  - unfold exec_finish in H. case_all; injection H as <-; done.
Qed.

(** The part of C3 that holds: in every state of a run at most
    [max_downloaders] tasks are inside
    [async with self.__max_downloaders], and a task that writes a
    pointer file is not one of them. *)
Lemma downloads_bounded lib cfg fs remote s :
  reachable lib cfg (start cfg fs remote) s →
  (downloading s ≤ max_downloaders cfg)%nat ∧
  ∀ t lp c, t ∈ st_tasks s → t_state t = AwaitWrite lp c →
            holds_slot (t_state t) = false.
Proof.
  intros Hr. split.
  - enough (st_downloaders s + downloading s = max_downloaders cfg)%nat by lia.
    revert s Hr.
    apply (reachable_ind lib cfg _
             (fun s => st_downloaders s + downloading s = max_downloaders cfg)%nat).
    + unfold downloading. simpl. lia.
    + intros l s1 s2 H1 H2. rewrite <- H1. by eapply download_slots_step.
  - by intros t lp c _ ->.
Qed.

(** ** The full paths of the traversal *)

Lemma prefix_iff a : ∀ b, String.prefix a b = true ↔ ∃ k, b = a ++ k.
Proof.
  induction a as [|c a IH]; intros b.
  - split; [intros _; by exists b|intros _; by destruct b].
  - destruct b as [|c' b]; simpl.
    + split; [done|]. by intros [k Hk].
    + destruct (ascii_dec c c') as [->|Hne].
      * rewrite IH. split; intros [k Hk]; exists k; [by rewrite Hk|].
        by injection Hk.
      * split; [done|]. intros [k Hk]. injection Hk as Hc _. done.
Qed.

Lemma string_app_assoc (a b c : string) : (a ++ b) ++ c = a ++ (b ++ c).
Proof.
  induction a as [|x a IH]; [reflexivity|].
  change (String x ((a ++ b) ++ c) = String x (a ++ (b ++ c))). by rewrite IH.
Qed.

Lemma string_app_nil_r (a : string) : a ++ "" = a.
Proof.
  induction a as [|x a IH]; [reflexivity|].
  change (String x (a ++ "") = String x a). by rewrite IH.
Qed.

Lemma child_full_path_prefix src dir n :
  String.prefix src dir = true →
  child_full_path dir n ≠ "" ∧ String.prefix src (child_full_path dir n) = true.
Proof.
  intros [k ->]%prefix_iff. unfold child_full_path.
  destruct (String.eqb_spec (src ++ k) "/") as [E|_].
  - split; [done|]. apply prefix_iff. exists (k ++ n).
    by rewrite <- string_app_assoc, E.
  - split.
    + destruct src, k; done.
    + apply prefix_iff. exists (k ++ "/" ++ n). by rewrite string_app_assoc.
Qed.

Lemma iter_entry_under_root src n : ∀ dir,
  String.prefix src dir = true → Forall (under_root src) (iter_entry dir n).
Proof.
  induction n as [path detail listing IH] using rnode_nested_ind.
  intros dir Hdir. simpl.
  pose proof (child_full_path_prefix src dir (name path) Hdir) as [Hne Hpre].
  constructor; [done|]. apply Forall_app. split; [|by repeat constructor].
  destruct (is_dir path); [|done].
  destruct listing as [cs|]; [|by repeat constructor].
  constructor; [done|].
  induction IH as [|c cs Hc _ IHcs]; simpl; [done|].
  apply Forall_app. split; [by apply Hc|done].
Qed.

(** Every full path the filter is called with is not empty and starts
    with the directory the traversal started from. *)
Lemma iter_path_under_root src remote :
  Forall (under_root src) (iter_path src remote).
Proof.
  assert (Hs : String.prefix src src = true).
  { apply prefix_iff. exists "". by rewrite string_app_nil_r. }
  destruct remote as [cs|]; simpl; [|by repeat constructor].
  constructor; [done|].
  induction cs as [|c cs IH]; simpl; [done|].
  apply Forall_app. split; [by apply iter_entry_under_root|done].
Qed.

(** So, in a run, the mapper is always called with what the design
    takes for granted. *)
Lemma traversal_maps_as_designed cfg remote path full detail :
  OpFilter path full detail ∈ iter_path (source_dir cfg) remote →
  local_base cfg path full = SpecPathMapper.map_base cfg path full.
Proof.
  intros Hin.
  pose proof (iter_path_under_root (source_dir cfg) remote) as Hall.
  rewrite Forall_forall in Hall. specialize (Hall _ Hin). simpl in Hall.
  by apply local_base_as_designed.
Qed.

(** * Further properties of the code *)

(** ** AlistClient: construction and the login token *)

Lemma rstrip_slash_cons c s :
  c ≠ "/"%char → Str.rstrip_slash (String c s) = String c (Str.rstrip_slash s).
Proof.
  intros Hc. simpl. destruct (Str.rstrip_slash s); [|done].
  by destruct (Ascii.eqb_spec c "/").
Qed.

Lemma rstrip_slash_http s :
  Str.startswith "http" s = true → Str.startswith "http" (Str.rstrip_slash s) = true.
Proof.
  unfold Str.startswith. intros [k ->]%prefix_iff.
  change ("http" ++ k) with (String "h" (String "t" (String "t" (String "p" k)))).
  rewrite !rstrip_slash_cons by done.
  apply prefix_iff. by exists (Str.rstrip_slash k).
Qed.

(** The last character of a string, if any. *)
Lemma rstrip_slash_last s :
  ∀ k, Str.rstrip_slash s ≠ k ++ "/".
Proof.
  induction s as [|c s IH]; intros k Heq.
  - by destruct k.
  - simpl in Heq. destruct (Str.rstrip_slash s) as [|c' r] eqn:E.
    + destruct (Ascii.eqb_spec c "/") as [->|Hc].
      * by destruct k.
      * destruct k as [|x k]; [by injection Heq|].
        injection Heq as _ Heq. by destruct k.
    + destruct k as [|x k]; [by injection Heq|].
      injection Heq as _ Heq. by apply (IH k).
Qed.

Lemma client_init_url_prefixed url :
  Str.startswith "http"
    (if negb (Str.startswith "http" url) then "https://" ++ url else url) = true.
Proof.
  destruct (Str.startswith "http" url) eqn:E; simpl; done.
Qed.





Lemma get_token_permanent c stamp resp :
  AlistClient.tk_expires (AlistClient.cl_token c) = -1 →
  AlistClient.get_token c stamp resp
  = (Ok (AlistClient.tk_token (AlistClient.cl_token c)), c).
Proof. intros H. unfold AlistClient.get_token. by rewrite H. Qed.

Lemma get_token_keeps c stamp resp :
  AlistClient.cl_url (AlistClient.get_token c stamp resp).2 = AlistClient.cl_url c ∧
  AlistClient.cl_credentials (AlistClient.get_token c stamp resp).2
  = AlistClient.cl_credentials c ∧
  AlistClient.cl_base_path (AlistClient.get_token c stamp resp).2
  = AlistClient.cl_base_path c.
Proof.
  unfold AlistClient.get_token.
  repeat (match goal with
          | |- context [if ?b then _ else _] => destruct b
          | |- context [match ?x with _ => _ end] => destruct x
          end; simpl; try done).
Qed.

Lemma sync_api_me_keeps c stamp login me :
  AlistClient.cl_url (AlistClient.sync_api_me c stamp login me).2 = AlistClient.cl_url c ∧
  AlistClient.cl_credentials (AlistClient.sync_api_me c stamp login me).2
  = AlistClient.cl_credentials c ∧
  (AlistClient.tk_expires (AlistClient.cl_token c) = -1 →
   AlistClient.cl_token (AlistClient.sync_api_me c stamp login me).2
   = AlistClient.cl_token c).
Proof.
  unfold AlistClient.sync_api_me.
  pose proof (get_token_keeps c stamp login) as (H1 & H2 & _).
  pose proof (get_token_permanent c stamp login) as H3.
  destruct (AlistClient.get_token c stamp login) as [[t|e] c1]; simpl in *.
  - assert (Ht : AlistClient.tk_expires (AlistClient.cl_token c) = -1 →
                 AlistClient.cl_token c1 = AlistClient.cl_token c).
    { intros H. specialize (H3 H). by injection H3 as _ ->. }
    repeat (match goal with
            | |- context [if ?b then _ else _] => destruct b
            | |- context [match ?x with _ => _ end] => destruct x
            end; simpl; try done).
  - split; [done|]. split; [done|]. intros H. specialize (H3 H). by injection H3 as _ ->.
Qed.

(** X2: when the constructor returns, the URL of the client starts
    with [http] and does not end with a slash.  Built with a token, the
    client stores no user name or password and answers every later
    request for the token with that token, without a login; built
    without one, it holds the user name and the password, both not
    empty. *)
Theorem X2_client_init_url_and_token
    url username password token stamp login me c :
  AlistClient.init url username password token stamp login me = Ok c →
  Str.startswith "http" (AlistClient.cl_url c) = true ∧
  (∀ k, AlistClient.cl_url c ≠ k ++ "/") ∧
  (token ≠ "" →
   AlistClient.cl_credentials c = None ∧
   ∀ later resp, AlistClient.get_token c later resp = (Ok token, c)) ∧
  (token = "" →
   AlistClient.cl_credentials c = Some (username, password) ∧
   username ≠ "" ∧ password ≠ "").
Proof.
  unfold AlistClient.init. intros H.
  destruct ((String.eqb username "" || String.eqb password "") && String.eqb token "")%bool
    eqn:Hchk; [done|].
  destruct (String.eqb_spec token "") as [Ht|Ht]; simpl in H.
  - destruct (String.eqb_spec username "") as [Hu|Hu]; [done|].
    destruct (String.eqb_spec password "") as [Hp|Hp]; [done|]. simpl in H.
    match type of H with context [AlistClient.sync_api_me ?c0 ?t ?l ?m] =>
      pose proof (sync_api_me_keeps c0 t l m) as (H1 & H2 & _);
      destruct (AlistClient.sync_api_me c0 t l m) as [[[]|e] c1]; [|done] end.
    injection H as <-. simpl in *. rewrite H1, H2.
    split; [apply rstrip_slash_http, client_init_url_prefixed|].
    split; [apply rstrip_slash_last|]. split; [done|]. by intros _.
  - match type of H with context [AlistClient.sync_api_me ?c0 ?t ?l ?m] =>
      pose proof (sync_api_me_keeps c0 t l m) as (H1 & H2 & H3);
      destruct (AlistClient.sync_api_me c0 t l m) as [[[]|e] c1]; [|done] end.
    injection H as <-. simpl in *. specialize (H3 eq_refl). rewrite H1, H2.
    split; [apply rstrip_slash_http, client_init_url_prefixed|].
    split; [apply rstrip_slash_last|]. split; [|done]. intros _. split; [done|].
    intros later resp. rewrite get_token_permanent by by rewrite H3.
    by rewrite H3.
Qed.

Lemma X2_witness :
  Str.startswith "http"
    (AlistClient.cl_url
       {| AlistClient.cl_url := "https://host/alist";
          AlistClient.cl_credentials := None;
          AlistClient.cl_token :=
            {| AlistClient.tk_token := "permanent"; AlistClient.tk_expires := -1 |};
          AlistClient.cl_base_path := "/"; AlistClient.cl_id := 1 |}) = true.
Proof.
  refine (proj1 (X2_client_init_url_and_token "host/alist//" "" "" "permanent" 5
                   ClientScenario.login_refused ClientScenario.me_ok _ _)).
  reflexivity.
Defined.

(** X3: a token that has expired is replaced by the one a successful
    login returns, valid for two days less five minutes; until that
    time has passed, that time included, every request for the token
    returns it without a login and leaves the client as it is. *)
Theorem X3_token_refreshed_then_reused c stamp resp :
  AlistClient.tk_expires (AlistClient.cl_token c) ≠ -1 →
  AlistClient.tk_expires (AlistClient.cl_token c) < stamp →
  0 ≤ stamp →
  is_Some (AlistClient.cl_credentials c) →
  AlistClient.lg_status resp = 200 →
  AlistClient.lg_code resp = 200 →
  ∃ c', AlistClient.get_token c stamp resp = (Ok (AlistClient.lg_token resp), c') ∧
        AlistClient.tk_expires (AlistClient.cl_token c') = stamp + 172500 ∧
        ∀ later resp', stamp ≤ later ≤ stamp + 172500 →
          AlistClient.get_token c' later resp' = (Ok (AlistClient.lg_token resp), c').
Proof.
  intros Hperm Hexp Hpos [cr Hcr] Hs Hc.
  unfold AlistClient.get_token at 1, AlistClient.api_auth_login.
  rewrite Hcr, Hs, Hc.
  destruct (Z.eqb_spec (AlistClient.tk_expires (AlistClient.cl_token c)) (-1)); [done|].
  destruct (Z.ltb_spec (AlistClient.tk_expires (AlistClient.cl_token c)) stamp); [|lia].
  simpl. eexists. split; [done|]. split; [simpl; lia|].
  intros later resp' Hl. unfold AlistClient.get_token. simpl.
  destruct (Z.eqb_spec (stamp + 2 * 24 * 60 * 60 - 5 * 60) (-1)); [lia|].
  destruct (Z.ltb_spec (stamp + 2 * 24 * 60 * 60 - 5 * 60) later); [lia|]. done.
Qed.

Lemma X3_witness :
  ∃ c', AlistClient.get_token ClientScenario.with_password 5000 ClientScenario.login_ok
        = (Ok "fresh", c').
Proof.
  destruct (X3_token_refreshed_then_reused ClientScenario.with_password 5000
              ClientScenario.login_ok) as (c' & H & _).
  - discriminate.
  - reflexivity.
  - discriminate.
  - by eexists.
  - reflexivity.
  - reflexivity.
  - by exists c'.
Defined.



(** X5: a client the constructor returned never fails to renew its
    token for want of a user name or a password: either its token never
    expires, or they are stored; this stays so after every request for
    the token, and no such request raises AttributeError. *)
Theorem X5_client_can_always_renew
    url username password token stamp login me c :
  AlistClient.init url username password token stamp login me = Ok c →
  AlistClient.can_renew c ∧
  ∀ c0, AlistClient.can_renew c0 →
    ∀ later resp,
      (AlistClient.get_token c0 later resp).1 ≠ Raise AttributeError ∧
      AlistClient.can_renew (AlistClient.get_token c0 later resp).2.
Proof.
  intros H. split.
  - unfold AlistClient.init in H.
    destruct ((String.eqb username "" || String.eqb password "") && String.eqb token "")%bool;
      [done|].
    destruct (String.eqb_spec token "") as [Ht|Ht]; simpl in H.
    + destruct (negb (String.eqb username "") && negb (String.eqb password ""))%bool;
        [|done]. simpl in H.
      match type of H with context [AlistClient.sync_api_me ?c0 ?t ?l ?m] =>
        pose proof (sync_api_me_keeps c0 t l m) as (_ & H2 & _);
        destruct (AlistClient.sync_api_me c0 t l m) as [[[]|e] c1]; [|done] end.
      injection H as <-. right. simpl in H2. rewrite H2. by eexists.
    + match type of H with context [AlistClient.sync_api_me ?c0 ?t ?l ?m] =>
        pose proof (sync_api_me_keeps c0 t l m) as (_ & _ & H3);
        destruct (AlistClient.sync_api_me c0 t l m) as [[[]|e] c1]; [|done] end.
      injection H as <-. left. simpl in H3. by rewrite (H3 eq_refl).
  - intros c0 Hc later resp. unfold AlistClient.can_renew in *.
    unfold AlistClient.get_token, AlistClient.api_auth_login.
    destruct (Z.eqb_spec (AlistClient.tk_expires (AlistClient.cl_token c0)) (-1)) as [E|E];
      simpl; [by split; [|left]|].
    destruct Hc as [Hc|[cr Hcr]]; [done|]. rewrite Hcr.
    repeat (match goal with
            | |- context [if ?b then _ else _] => destruct b
            end; simpl; try (split; [done|right; by rewrite ?Hcr])).
Qed.

Lemma X5_witness : AlistClient.can_renew ClientScenario.with_token.
Proof.
  refine (proj1 (X5_client_can_always_renew "https://host" "" "" "permanent" 0
                   ClientScenario.login_refused ClientScenario.me_ok _ _)).
  reflexivity.
Defined.

Lemma join_path_child dir n : AlistClient.join_path dir n = child_full_path dir n.
Proof.
  unfold AlistClient.join_path, child_full_path. by destruct (String.eqb dir "/").
Qed.

(** X6: [async_api_fs_list] returns entries only for an answer with
    HTTP status 200 and [code] 200; an answer whose [total] is 0 gives
    the empty list whatever its content; otherwise there is one entry
    per object of the content, in order, and each carries as
    [full_path] and [file_path] the path under which [iter_path] will
    pass it to the filter, and the URL and base path of the client. *)
Theorem X6_fs_list_entries c stamp login resp dir l c' :
  AlistClient.async_api_fs_list c stamp login resp dir = (Ok l, c') →
  AlistClient.ls_status resp = 200 ∧ AlistClient.ls_code resp = 200 ∧
  (AlistClient.ls_total resp = 0 → l = []) ∧
  (AlistClient.ls_total resp ≠ 0 →
   map name l = map AlistClient.it_name (AlistClient.ls_content resp)) ∧
  Forall (fun p => full_path p = child_full_path dir (name p) ∧
                   file_path p = full_path p ∧
                   server_url p = AlistClient.cl_url c' ∧
                   base_path p = AlistClient.cl_base_path c') l.
Proof.
  unfold AlistClient.async_api_fs_list. intros H.
  destruct (AlistClient.get_token c stamp login) as [[t|e] c1]; [|done].
  destruct (Z.eqb_spec (AlistClient.ls_status resp) 200) as [Hs|Hs]; simpl in H; [|done].
  destruct (Z.eqb_spec (AlistClient.ls_code resp) 200) as [Hc|Hc]; simpl in H; [|done].
  split; [done|]. split; [done|].
  destruct (Z.eqb_spec (AlistClient.ls_total resp) 0) as [Ht|Ht];
    injection H as <- <-.
  - split; [done|]. split; [done|]. constructor.
  - split; [done|]. split.
    + intros _. rewrite map_map. done.
    + apply Forall_forall. intros p Hp. apply list_elem_of_fmap in Hp as (it & -> & _).
      simpl. by rewrite join_path_child.
Qed.

Lemma X6_witness :
  AlistClient.ls_status (ClientScenario.listing 2) = 200 ∧
  AlistClient.ls_code (ClientScenario.listing 2) = 200.
Proof.
  destruct (X6_fs_list_entries ClientScenario.with_token 0 ClientScenario.login_refused
              (ClientScenario.listing 2) "/media"
              (map (fun it => AlistClient.alist_path ClientScenario.with_token
                                (AlistClient.join_path "/media" (AlistClient.it_name it)) it)
                   [ClientScenario.item "a.mp4" false; ClientScenario.item "tv" true])
              ClientScenario.with_token) as (H1 & H2 & _).
  - reflexivity.
  - by split.
Defined.

(** ** A run ends *)

Import RunFacts.




Lemma ended_stuck lib cfg l s : ended s = true → exec lib cfg l s = None.
Proof.
  unfold ended. destruct (st_main s) eqn:Hm; try done; intros _.
  - by apply returned_stuck.
  - by eapply raised_stuck.
Qed.





(** ** A run does not get stuck *)

Lemma download_slots_reachable lib cfg fs remote s :
  reachable lib cfg (start cfg fs remote) s →
  (st_downloaders s + downloading s = max_downloaders cfg)%nat.
Proof.
  apply (reachable_ind lib cfg _
           (fun s => st_downloaders s + downloading s = max_downloaders cfg)%nat).
  - unfold downloading. simpl. lia.
  - intros l s1 s2 H1 H2. rewrite <- H1. by eapply download_slots_step.
Qed.

(** Before the task group is entered nothing has been taken from the
    semaphore of the workers. *)
Lemma acquire_workers lib cfg fs remote s :
  reachable lib cfg (start cfg fs remote) s →
  ∀ ops, st_main s = Acquire ops → st_workers s = max_workers cfg.
Proof.
  apply (reachable_ind lib cfg _
           (fun s => ∀ ops, st_main s = Acquire ops → st_workers s = max_workers cfg)).
  - done.
  - intros l s1 s2 _ H ops Hm. exfalso. destruct l as [|i r|order]; simpl in H.
    + destruct (exec_main_cases _ _ _ _ H)
        as [(ops' & n & _ & _ & ->)|[(o & ops' & _ & _ & _ & ->)|
            [(d & ops' & _ & _ & ->)|(path & full & detail & ops' & Hm')]]]; try done.
      rewrite (exec_main_filter _ _ _ _ _ _ _ Hm') in H. simpl in H.
      case_all; injection H as <-; done.
    + destruct (exec_task_shape _ _ _ _ _ _ H)
        as (t & ops' & _ & _ & _ & [(x & _ & _ & Hm')|(e & _ & _ & Hm' & _)]); congruence.
    + destruct (exec_finish_shape _ _ _ _ _ H) as (_ & _ & _ & _ & [Hm'|[e Hm']]);
        congruence.
Qed.

Lemma exec_main_filter_enabled lib cfg s path full detail ops :
  st_main s = Running (OpFilter path full detail :: ops) →
  is_Some (exec_main lib cfg s).
Proof.
  intros Hm. rewrite (exec_main_filter _ _ _ _ _ _ _ Hm). simpl.
  repeat (match goal with
          | |- context [if ?b then _ else _] => destruct b
          | |- context [match ?x with _ => _ end] => destruct x
          end; simpl; try by eexists).
Qed.

(** A task that does not wait for a download slot can take a step. *)
Lemma exec_task_enabled lib cfg i t s ops :
  st_main s = Running ops → st_tasks s !! i = Some t →
  unfinished (t_state t) = true →
  (∀ lp, t_state t = WaitDownloader lp → st_downloaders s ≠ 0%nat) →
  is_Some (exec_task lib cfg i (IoOk 0 0) s).
Proof.
  intros Hm Ht Hu Hw. unfold exec_task. rewrite Hm, Ht.
  destruct (t_state t) as [|lp c|lp c|lp|lp| | |] eqn:Hst; try done.
  - repeat (match goal with
            | |- context [match ?x with _ => _ end] => destruct x
            end; simpl; try by eexists).
  - repeat (match goal with
            | |- context [if ?b then _ else _] => destruct b
            | |- context [match ?x with _ => _ end] => destruct x
            end; simpl; try by eexists).
  - destruct (Fs.is_dir _ _); by eexists.
  - specialize (Hw lp eq_refl). destruct (st_downloaders s); [done|]. by eexists.
  - simpl. destruct (Fs.is_dir _ _); by eexists.
Qed.

Lemma exec_finish_enabled lib cfg s :
  st_main s = Running [] →
  Forall (fun t => t_state t = Done) (st_tasks s) →
  ∃ order, is_Some (exec_finish lib cfg order s).
Proof.
  intros Hm Hd.
  exists (elements (deletion_set cfg (processed_local_paths (st_self s)) (st_fs s))).
  unfold exec_finish. rewrite Hm.
  assert (Hall : forallb (fun t => is_done (t_state t)) (st_tasks s) = true).
  { apply forallb_forall. intros t Ht%list_elem_of_In.
    rewrite Forall_forall in Hd. by rewrite (Hd t Ht). }
  rewrite Hall. simpl. destruct (sync_server cfg); [|by eexists].
  rewrite bool_decide_true by (unfold iterates; done).
  destruct (cleanup_local_files _ _ _ _ _); by eexists.
Qed.

Lemma downloading_pos (l : list task) :
  (0 < length (List.filter (fun t => holds_slot (t_state t)) l))%nat →
  ∃ j t, l !! j = Some t ∧ unfinished (t_state t) = true ∧
         ∀ lp, t_state t ≠ WaitDownloader lp.
Proof.
  induction l as [|a l IH]; simpl; [lia|].
  destruct (holds_slot (t_state a)) eqn:Ha.
  - intros _. exists 0%nat, a. split; [done|]. by destruct (t_state a).
  - intros H. destruct (IH H) as (j & t & Hj & Ht). by exists (S j), t.
Qed.

Lemma not_all_done (l : list task) :
  Forall (fun t => settled (t_state t)) l →
  forallb (fun t => is_done (t_state t)) l = false →
  ∃ j t, l !! j = Some t ∧ unfinished (t_state t) = true.
Proof.
  induction l as [|a l IH]; intros Hs Hn; [done|].
  inversion Hs as [|? ? Ha Hl]; subst. simpl in Hn.
  destruct (is_done (t_state a)) eqn:Hd; simpl in Hn.
  - destruct (IH Hl Hn) as (j & t & Hj & Ht). by exists (S j), t.
  - exists 0%nat, a. split; [done|]. by destruct (t_state a).
Qed.

Lemma not_ready_created s :
  ready_queue_empty s = false →
  ∃ j t, st_tasks s !! j = Some t ∧ t_state t = Created.
Proof.
  unfold ready_queue_empty. generalize (st_tasks s). intros l.
  induction l as [|a l IH]; simpl; [done|].
  destruct (t_state a) eqn:Ha; simpl; try (intros H; destruct (IH H) as (j & t & Hj & Ht);
    by exists (S j), t).
  intros _. by exists 0%nat, a.
Qed.

(** X8: with room for at least one worker and one download, a run that
    has neither returned nor raised can always take a step: the
    coroutine of [run] proceeds, or a task does, or the task group is
    left.  Together with the bound on its length, every run ends by
    returning or by raising. *)
Theorem X8_run_never_deadlocks lib cfg fs remote s :
  (0 < max_workers cfg)%nat →
  (0 < max_downloaders cfg)%nat →
  reachable lib cfg (start cfg fs remote) s →
  ended s = false →
  ∃ l s', exec lib cfg l s = Some s'.
Proof.
  intros Hw Hd Hr He.
  pose proof (tasks_match_main_reachable _ _ _ _ _ Hr) as Hinv.
  pose proof (download_slots_reachable _ _ _ _ _ Hr) as Hslots.
  assert (Htask : ∀ ops j t, st_main s = Running ops → st_tasks s !! j = Some t →
            unfinished (t_state t) = true → ∃ l s', exec lib cfg l s = Some s').
  { intros ops j t Hm Hj Hu.
    destruct (decide (st_downloaders s = 0%nat)) as [Hz|Hz].
    - destruct (downloading_pos (st_tasks s)) as (k & u & Hk & Huu & Hnw).
      { unfold downloading in Hslots. lia. }
      destruct (exec_task_enabled lib cfg k u s ops Hm Hk Huu) as [s' Hs'].
      { intros lp Hlp. by destruct (Hnw lp). }
      by exists (LTask k (IoOk 0 0)), s'.
    - destruct (exec_task_enabled lib cfg j t s ops Hm Hj Hu) as [s' Hs']; [done|].
      by exists (LTask j (IoOk 0 0)), s'. }
  unfold ended in He. unfold tasks_match_main in Hinv.
  destruct (st_main s) as [ops|[|o ops]| |] eqn:Hm; try done.
  - exists LMain. simpl. unfold exec_main. rewrite Hm.
    rewrite (acquire_workers _ _ _ _ _ Hr ops Hm).
    destruct (max_workers cfg); [lia|]. by eexists.
  - destruct (forallb (fun t => is_done (t_state t)) (st_tasks s)) eqn:Hall.
    + apply all_done_Forall in Hall.
      destruct (exec_finish_enabled lib cfg s Hm Hall) as (order & s' & Hs').
      by exists (LFinish order), s'.
    + destruct (not_all_done _ Hinv Hall) as (j & t & Hj & Hu). by eapply Htask.
  - destruct o as [d ok| |path full detail].
    + destruct (ready_queue_empty s) eqn:Hq.
      * exists LMain. simpl. unfold exec_main. rewrite Hm, Hq. destruct ok; by eexists.
      * destruct (not_ready_created s Hq) as (j & t & Hj & Hc).
        eapply Htask; [done|exact Hj|by rewrite Hc].
    + destruct (ready_queue_empty s) eqn:Hq.
      * exists LMain. simpl. unfold exec_main. rewrite Hm, Hq. by eexists.
      * destruct (not_ready_created s Hq) as (j & t & Hj & Hc).
        eapply Htask; [done|exact Hj|by rewrite Hc].
    + destruct (exec_main_filter_enabled lib cfg s _ _ _ _ Hm) as [s' Hs'].
      by exists LMain, s'.
Qed.

Lemma X8_witness :
  ∃ l s', exec Scenario.lib0 Scenario.cfg0 l Scenario.one_downloading = Some s'.
Proof.
  apply (X8_run_never_deadlocks Scenario.lib0 Scenario.cfg0 Scenario.fs_empty
           (Scenario.remote2 "a.srt" "b.mp4")).
  - vm_compute. lia.
  - vm_compute. lia.
  - exists (Scenario.dispatch2 ++ [LTask 0 (IoOk 10 0)])%list. vm_compute. reflexivity.
  - reflexivity.
Defined.

(** X9: a limit of zero blocks for ever.  With [max_workers = 0] no
    step is possible from the start of [run]: the coroutine waits for
    the semaphore and nothing else exists.  With [max_downloaders = 0]
    no task of any run is ever inside
    [async with self.__max_downloaders], and a task that waits for a
    download slot cannot take a step. *)
Theorem X9_zero_limits_block lib cfg fs remote :
  (max_workers cfg = 0%nat → ∀ l, exec lib cfg l (start cfg fs remote) = None) ∧
  (max_downloaders cfg = 0%nat →
   ∀ s, reachable lib cfg (start cfg fs remote) s →
        downloading s = 0%nat ∧
        ∀ i t lp r, st_tasks s !! i = Some t → t_state t = WaitDownloader lp →
                    exec lib cfg (LTask i r) s = None).
Proof.
  split.
  - intros Hz [|i r|order]; simpl.
    + unfold exec_main. simpl. by rewrite Hz.
    + done.
    + done.
  - intros Hz s Hr. pose proof (download_slots_reachable _ _ _ _ _ Hr) as Hs.
    split; [lia|]. intros i t lp r Ht Hst. simpl. unfold exec_task. rewrite Ht, Hst.
    destruct (st_main s); try done.
    destruct (st_downloaders s) eqn:E; [done|lia].
Qed.

(** ** The mode of a run *)

Lemma mode_step lib cfg l s s' :
  exec lib cfg l s = Some s' → mode (st_self s') = mode (st_self s).
Proof.
  intros H. destruct l as [|i r|order]; simpl in H.
  - destruct (exec_main_cases _ _ _ _ H)
      as [(ops & n & Hm & _ & ->)|[(o & ops & Hm & _ & _ & ->)|
          [(d & ops & Hm & _ & ->)|(path & full & detail & ops & Hm)]]]; try done.
    rewrite (exec_main_filter _ _ _ _ _ _ _ Hm) in H. simpl in H.
    pose proof (filter_mode lib cfg (st_fs s) (st_self s) path full) as Hf.
    case_all; injection H as <-; exact Hf.
  - by rewrite (exec_task_self _ _ _ _ _ _ H).
  - by rewrite (exec_finish_self _ _ _ _ _ H).
Qed.

Lemma mode_reachable lib cfg fs remote s :
  reachable lib cfg (start cfg fs remote) s →
  mode (st_self s) = normal_mode (init_mode cfg).
Proof.
  apply (reachable_ind lib cfg _
           (fun s => mode (st_self s) = normal_mode (init_mode cfg))).
  - done.
  - intros l s1 s2 H1 H2. by rewrite (mode_step _ _ _ _ _ H2).
Qed.

Lemma normal_mode_cases m :
  ((m ∈ ["AlistURL"; "RawURL"; "AlistPath"]) ∧ normal_mode m = m) ∨
  ((m ∉ ["AlistURL"; "RawURL"; "AlistPath"]) ∧ normal_mode m = "AlistURL").
Proof.
  unfold normal_mode, mem.
  destruct (decide (m ∈ ["AlistURL"; "RawURL"; "AlistPath"])) as [H|H].
  - left. by rewrite bool_decide_true.
  - right. by rewrite bool_decide_false.
Qed.

(** X10: the mode is settled once, at the start of [run], and no step
    changes it: it is one of the three known modes, the configured one
    if that is known and [AlistURL] otherwise.  So the branch of
    [__file_processer] that raises ValueError for an unknown mode is
    never taken in a run. *)
Theorem X10_mode_is_normalised lib cfg fs remote s :
  reachable lib cfg (start cfg fs remote) s →
  mode (st_self s) ∈ ["AlistURL"; "RawURL"; "AlistPath"] ∧
  (init_mode cfg ∈ ["AlistURL"; "RawURL"; "AlistPath"] →
   mode (st_self s) = init_mode cfg) ∧
  (init_mode cfg ∉ ["AlistURL"; "RawURL"; "AlistPath"] →
   mode (st_self s) = "AlistURL") ∧
  ∀ path, content lib (mode (st_self s)) path ≠ Raise ValueError.
Proof.
  intros Hr. rewrite (mode_reachable _ _ _ _ _ Hr).
  destruct (normal_mode_cases (init_mode cfg)) as [[Hin ->]|[Hnin ->]].
  - split; [done|]. split; [done|]. split; [done|].
    intros path. unfold content.
    apply elem_of_cons in Hin as [->|Hin]; [done|].
    apply elem_of_cons in Hin as [->|Hin]; [done|].
    apply elem_of_cons in Hin as [->|Hin]; [done|].
    by apply elem_of_nil in Hin.
  - split; [set_solver|]. split; [done|]. split; [done|]. done.
Qed.

Lemma X10_witness :
  mode (st_self Scenario.one_downloading) ∈ ["AlistURL"; "RawURL"; "AlistPath"].
Proof.
  refine (proj1 (X10_mode_is_normalised Scenario.lib0 Scenario.cfg0 Scenario.fs_empty
                   (Scenario.remote2 "a.srt" "b.mp4") Scenario.one_downloading _)).
  exists (Scenario.dispatch2 ++ [LTask 0 (IoOk 10 0)])%list. vm_compute. reflexivity.
Defined.

(** ** The events of a run *)

Lemma exec_task_events lib cfg i r s s' :
  exec_task lib cfg i r s = Some s' →
  ∃ evs, st_events s' = (st_events s ++ evs)%list ∧
         Forall (fun ev => is_ev_detail ev = false) evs.
Proof.
  unfold exec_task. intros H.
  destruct (st_main s); try done.
  destruct (st_tasks s !! i) as [t|]; [|done].
  assert (Hnil : ∀ s0, st_events s0 = st_events s →
            ∃ evs, st_events s0 = (st_events s ++ evs)%list ∧
                   Forall (fun ev => is_ev_detail ev = false) evs).
  { intros s0 H0. exists []. by rewrite app_nil_r. }
  assert (Henter : ∀ lp s0, st_events s0 = st_events s →
            ∃ evs, st_events (enter_download lib i t lp s0) = (st_events s ++ evs)%list ∧
                   Forall (fun ev => is_ev_detail ev = false) evs).
  { intros lp s0 H0. unfold enter_download. destruct (st_downloaders s0).
    - exists []. simpl. by rewrite app_nil_r.
    - eexists [_]. simpl. rewrite H0. split; [done|]. by repeat constructor. }
  destruct (t_state t) as [|lp c|lp c|lp|lp| | |]; try done.
  - case_all; injection H as <-; by apply Hnil.
  - destruct r as [mtime sz|e]; [|injection H as <-; by apply Hnil].
    destruct (mkdir_parents _ _ _) as [fs|e]; [|injection H as <-; by apply Hnil].
    destruct (String.eqb _ _); injection H as <-; [by apply Hnil|by apply Henter].
  - destruct r as [mtime sz|e]; [|injection H as <-; by apply Hnil].
    destruct (Fs.is_dir _ _); injection H as <-; [by apply Hnil|].
    eexists [_]. simpl. split; [done|]. by repeat constructor.
  - destruct (st_downloaders s) eqn:E; [done|]. injection H as <-. by apply Henter.
  - simpl in H. destruct r as [mtime sz|e]; [|injection H as <-; by apply Hnil].
    destruct (Fs.is_dir _ _); injection H as <-; by apply Hnil.
Qed.

Lemma cancel_keeps_paths (l : list task) :
  Forall (fun t => t_path t = t_listed t) l →
  Forall (fun t => t_path t = t_listed t) (map cancel l).
Proof.
  intros H. apply Forall_fmap. eapply Forall_impl; [exact H|].
  intros t Ht. unfold compose, cancel, set_tstate. simpl in *.
  by destruct (unfinished (t_state t)).
Qed.

Lemma no_detail_step lib cfg l s s' :
  is_detail (st_self s) = false →
  exec lib cfg l s = Some s' →
  Forall (fun ev => is_ev_detail ev = false) (st_events s) →
  Forall (fun t => t_path t = t_listed t) (st_tasks s) →
  Forall (fun ev => is_ev_detail ev = false) (st_events s') ∧
  Forall (fun t => t_path t = t_listed t) (st_tasks s').
Proof.
  intros Hd H Hev Hts. destruct l as [|i r|order]; simpl in H.
  - destruct (exec_main_cases _ _ _ _ H)
      as [(ops & n & Hm & _ & ->)|[(o & ops & Hm & _ & _ & ->)|
          [(d & ops & Hm & _ & ->)|(path & full & detail & ops & Hm)]]].
    + by split.
    + by split.
    + split; [done|]. by apply cancel_keeps_paths.
    + rewrite (exec_main_filter _ _ _ _ _ _ _ Hm) in H. simpl in H.
      assert (Hd': is_detail (filter lib cfg (st_fs s) (st_self s) path full).2 = false).
      { unfold is_detail in *. by rewrite filter_mode. }
      rewrite Hd' in H.
      pose proof (cancel_keeps_paths _ Hts) as Hc.
      case_all; injection H as <-; simpl; split; try done.
      apply Forall_app. split; [done|]. by repeat constructor.
  - destruct (exec_task_events _ _ _ _ _ _ H) as (evs & -> & Hevs).
    split; [by apply Forall_app|].
    destruct (exec_task_shape _ _ _ _ _ _ H)
      as (t & ops & Hm & Ht & _ & [(x & _ & -> & _)|(e & _ & -> & _)]).
    + apply Forall_insert; [done|]. simpl. by apply (Forall_lookup_1 _ _ _ _ Hts Ht).
    + apply cancel_keeps_paths.
      apply Forall_insert; [done|]. simpl. by apply (Forall_lookup_1 _ _ _ _ Hts Ht).
  - unfold exec_finish in H. case_all; injection H as <-; done.
Qed.

(** X11: only the mode [RawURL] asks the server for the details of an
    entry.  In a run in any other mode [async_api_fs_get] is never
    called, and every task works on the entry as it was listed. *)
Theorem X11_detail_only_in_raw_url_mode lib cfg fs remote s :
  normal_mode (init_mode cfg) ≠ "RawURL" →
  reachable lib cfg (start cfg fs remote) s →
  Forall (fun ev => is_ev_detail ev = false) (st_events s) ∧
  Forall (fun t => t_path t = t_listed t) (st_tasks s).
Proof.
  intros Hmode Hr.
  assert (Hd : ∀ s0, reachable lib cfg (start cfg fs remote) s0 →
                     is_detail (st_self s0) = false).
  { intros s0 H0. unfold is_detail. rewrite (mode_reachable _ _ _ _ _ H0).
    by apply String.eqb_neq. }
  destruct Hr as [ls Hls]. revert s Hls.
  induction ls as [|l ls IH] using rev_ind; intros s Hls.
  - injection Hls as <-. by split.
  - assert (∃ s1, execs lib cfg ls (start cfg fs remote) = Some s1 ∧
                  exec lib cfg l s1 = Some s) as (s1 & H1 & H2).
    { clear IH Hd. revert Hls. generalize (start cfg fs remote). intros s0.
      revert s0. induction ls as [|k ls IHl]; simpl; intros s0 H.
      - destruct (exec lib cfg l s0) as [s1|] eqn:E; [|done]. injection H as <-. eauto.
      - destruct (exec lib cfg k s0) as [s1|]; [|done]. by apply IHl. }
    destruct (IH s1 H1) as [Hev Hts].
    eapply no_detail_step; eauto. apply Hd. by exists ls.
Qed.

Lemma X11_witness :
  Forall (fun ev => is_ev_detail ev = false) (st_events Scenario.one_downloading).
Proof.
  refine (proj1 (X11_detail_only_in_raw_url_mode Scenario.lib0 Scenario.cfg0
                   Scenario.fs_empty (Scenario.remote2 "a.srt" "b.mp4")
                   Scenario.one_downloading _ _)).
  - discriminate.
  - exists (Scenario.dispatch2 ++ [LTask 0 (IoOk 10 0)])%list. vm_compute. reflexivity.
Defined.

(** ** Mode [AlistPath] *)

Lemma cancel_Forall (P : tstate → Prop) (l : list task) :
  P Cancelled →
  Forall (fun t => P (t_state t)) l →
  Forall (fun t => P (t_state t)) (map cancel l).
Proof.
  intros Hc H. apply Forall_fmap. eapply Forall_impl; [exact H|].
  intros t Ht. unfold compose, cancel, set_tstate. simpl in *.
  by destruct (unfinished (t_state t)).
Qed.





(** ** What is written and what is downloaded *)

Lemma suffix_ok_step lib cfg l s s' :
  exec lib cfg l s = Some s' →
  Forall (fun t => suffix_ok (t_state t)) (st_tasks s) →
  Forall (fun t => suffix_ok (t_state t)) (st_tasks s').
Proof.
  intros H Hts. destruct l as [|i r|order]; simpl in H.
  - destruct (exec_main_cases _ _ _ _ H)
      as [(ops & n & Hm & _ & ->)|[(o & ops & Hm & _ & _ & ->)|
          [(d & ops & Hm & _ & ->)|(path & full & detail & ops & Hm)]]].
    + done.
    + done.
    + by apply (cancel_Forall suffix_ok).
    + rewrite (exec_main_filter _ _ _ _ _ _ _ Hm) in H. simpl in H.
      pose proof (cancel_Forall suffix_ok _ I Hts) as Hc.
      case_all; injection H as <-; simpl; try done;
        (apply Forall_app; split; [done|]; by repeat constructor).
  - destruct (exec_task_shape _ _ _ _ _ _ H)
      as (t & ops & Hm & Ht & _ & [(x & Hx & -> & _)|(e & _ & -> & _)]).
    + apply Forall_insert; [done|]. simpl.
      pose proof (Forall_lookup_1 _ _ _ _ Hts Ht) as Hok. simpl in Hok.
      destruct Hx as [full lp c Hs Hf Hl|lp c Hs Hsuf|lp c Hs Hsuf
                     |lp c Hs Hsuf|lp Hs|lp c Hs|lp Hs]; simpl; try done.
      by rewrite Hs in Hok.
    + apply (cancel_Forall suffix_ok); [done|]. by apply Forall_insert.
  - destruct (exec_finish_shape _ _ _ _ _ H) as (_ & _ & -> & _). done.
Qed.

Lemma get_local_path_media cfg path full lp :
  is_media path = true →
  get_local_path cfg path full = Ok lp → PurePath.suffix lp = ".strm".
Proof.
  unfold is_media, get_local_path. intros -> H.
  destruct (with_suffix_strm (local_base cfg path full)) as [H1 H2].
  destruct (String.eqb_spec (PurePath.name (local_base cfg path full)) "") as [E|E].
  - by rewrite (H2 E) in H.
  - destruct (H1 E) as (lp' & Hlp & Hs & _). rewrite Hlp in H. by injection H as <-.
Qed.

(** X13: what a task does with its local file depends on the suffix of
    the local path alone.  A path that ends in [.strm] is written as a
    pointer file and never downloaded, also when the remote file is
    itself a [.strm] file that was asked for through [other_ext]; any
    other path is downloaded.  So no video is ever downloaded: the
    local path of a video ends in [.strm]. *)
Theorem X13_videos_are_never_downloaded lib cfg fs remote s t :
  forallb detail_agrees (iter_path (source_dir cfg) remote) = true →
  reachable lib cfg (start cfg fs remote) s →
  t ∈ st_tasks s →
  (∀ lp c, t_state t = AwaitWrite lp c → PurePath.suffix lp = ".strm") ∧
  (∀ lp, t_state t = WaitDownloader lp ∨ t_state t = Downloading lp →
         PurePath.suffix lp ≠ ".strm" ∧
         is_media (t_listed t) = false ∧ is_media (t_path t) = false).
Proof.
  intros Hda Hr Ht.
  assert (Hok : Forall (fun t => suffix_ok (t_state t)) (st_tasks s)).
  { revert s Hr Ht. intros s Hr _. revert s Hr.
    apply (reachable_ind lib cfg _
             (fun s => Forall (fun t => suffix_ok (t_state t)) (st_tasks s))).
    - constructor.
    - intros l s1 s2 H1 H2. by eapply suffix_ok_step. }
  rewrite Forall_forall in Hok. specialize (Hok t Ht).
  destruct (pipeline_inv_reachable _ _ _ _ _ Hda Hr) as [Hts _].
  rewrite Forall_forall in Hts.
  destruct (Hts t Ht) as (lp0 & H1 & H2 & _ & H4 & _).
  split.
  - intros lp c Hs. by rewrite Hs in Hok.
  - intros lp Hs.
    assert (Hsuf : PurePath.suffix lp ≠ ".strm").
    { destruct Hs as [Hs|Hs]; by rewrite Hs in Hok. }
    assert (Hw : lp = lp0).
    { apply H4. destruct Hs as [Hs|Hs]; by rewrite Hs. }
    subst lp0. split; [done|]. split.
    + destruct (is_media (t_listed t)) eqn:E; [|done].
      destruct Hsuf. by eapply get_local_path_media.
    + destruct (is_media (t_path t)) eqn:E; [|done].
      destruct Hsuf. by eapply get_local_path_media.
Qed.

Lemma X13_witness :
  PurePath.suffix (Scenario.out_file "a.srt") ≠ ".strm" ∧
  is_media (Scenario.entry "a.srt" "2024-01-01T00:00:00") = false.
Proof.
  destruct (X13_videos_are_never_downloaded Scenario.lib0 Scenario.cfg0
              Scenario.fs_empty (Scenario.remote2 "a.srt" "b.mp4")
              Scenario.one_downloading
              {| t_path := Scenario.entry "a.srt" "2024-01-01T00:00:00";
                 t_listed := Scenario.entry "a.srt" "2024-01-01T00:00:00";
                 t_full := "/media/a.srt";
                 t_state := Downloading (Scenario.out_file "a.srt") |})
    as [_ H].
  - reflexivity.
  - exists (Scenario.dispatch2 ++ [LTask 0 (IoOk 10 0)])%list. vm_compute. reflexivity.
  - apply list_elem_of_here.
  - destruct (H (Scenario.out_file "a.srt")) as (H1 & H2 & _); [by right|]. by split.
Defined.

(** ** The local files of the accepted entries *)

Lemma mkdir_from_keeps todo : ∀ (fs fs' : FS) anch done mtime q n,
  mkdir_from fs anch done todo mtime = Ok fs' →
  fs !! q = Some n → fs' !! q = Some n.
Proof.
  induction todo as [|c todo IH]; simpl; intros fs fs' anch done mtime q n H Hq.
  - by injection H as <-.
  - destruct (fs !! mkPath anch (done ++ [c])) as [m|] eqn:Hm.
    + destruct (bool_decide (n_kind m = KDir)); [|done]. by eapply IH.
    + eapply IH; [exact H|]. rewrite lookup_insert_ne; [done|].
      intros <-. by rewrite Hm in Hq.
Qed.

Lemma is_file_insert (fs : FS) p q mtime sz :
  Fs.is_file fs q = true → Fs.is_file (<[p := file_node mtime sz]> fs) q = true.
Proof.
  unfold Fs.is_file. intros H. destruct (decide (p = q)) as [->|Hne].
  - by rewrite lookup_insert_eq.
  - by rewrite lookup_insert_ne.
Qed.

Lemma is_file_written (fs : FS) p mtime sz :
  Fs.is_file (<[p := file_node mtime sz]> fs) p = true.
Proof. unfold Fs.is_file. by rewrite lookup_insert_eq. Qed.

(** A step of a task removes no file. *)
Lemma exec_task_files lib cfg i r s s' q :
  exec_task lib cfg i r s = Some s' →
  Fs.is_file (st_fs s) q = true → Fs.is_file (st_fs s') q = true.
Proof.
  unfold exec_task. intros H Hq.
  destruct (st_main s); try done.
  destruct (st_tasks s !! i) as [t|]; [|done].
  destruct (t_state t) as [|lp c|lp c|lp|lp| | |]; try done.
  - case_all; injection H as <-; done.
  - destruct r as [mtime sz|e]; [|injection H as <-; done].
    destruct (mkdir_parents _ _ _) as [fs|e] eqn:Hmk; [|injection H as <-; done].
    assert (Hfs : st_fs s' = fs).
    { destruct (String.eqb _ _); injection H as <-; [done|].
      by rewrite enter_download_fs. }
    rewrite Hfs. unfold Fs.is_file in *.
    destruct (st_fs s !! q) as [n|] eqn:Hn; [|done].
    by rewrite (mkdir_from_keeps _ _ _ _ _ _ _ _ Hmk Hn).
  - destruct r as [mtime sz|e]; [|injection H as <-; done].
    destruct (Fs.is_dir _ _); injection H as <-; [done|]. simpl.
    by apply is_file_insert.
  - destruct (st_downloaders s); [done|]. injection H as <-.
    by rewrite enter_download_fs.
  - destruct r as [mtime sz|e]; [|injection H as <-; done].
    simpl in H. destruct (Fs.is_dir _ _); injection H as <-; [done|]. simpl.
    by apply is_file_insert.
Qed.

(** The step that ends a task leaves a file at the path it wrote to. *)
Lemma exec_task_done lib cfg i r s s' t t' :
  exec_task lib cfg i r s = Some s' →
  st_tasks s !! i = Some t → st_tasks s' !! i = Some t' → t_state t' = Done →
  ∃ lp, writes_to (t_state t) = Some lp ∧ Fs.is_file (st_fs s') lp = true.
Proof.
  unfold exec_task. intros H Ht Ht' Hd. rewrite Ht in H.
  destruct (st_main s); try done.
  assert (Hi : (i < length (st_tasks s))%nat) by by eapply lookup_lt_Some.
  assert (Hfail : ∀ e s0, st_tasks s0 = st_tasks s → s' = fail_task i t e s0 → False).
  { intros e s0 H0 ->. simpl in Ht'. rewrite H0 in Ht'.
    rewrite list_lookup_fmap, list_lookup_insert_eq in Ht' by done.
    simpl in Ht'. injection Ht' as <-. done. }
  assert (Hmove : ∀ x s0, st_tasks s0 = st_tasks s → x ≠ Done →
                          s' = move_task i t x s0 → False).
  { intros x s0 H0 Hx ->. simpl in Ht'. rewrite H0 in Ht'.
    rewrite list_lookup_insert_eq in Ht' by done.
    injection Ht' as <-. done. }
  assert (Henter : ∀ lp s0, st_tasks s0 = st_tasks s →
                            s' = enter_download lib i t lp s0 → False).
  { intros lp s0 H0 ->. unfold enter_download in Ht'.
    destruct (st_downloaders s0); simpl in Ht'; rewrite H0 in Ht';
      rewrite list_lookup_insert_eq in Ht' by done; injection Ht' as <-; done. }
  destruct (t_state t) as [|lp c|lp c|lp|lp| | |]; try done.
  - exfalso. case_all; injection H as H; symmetry in H;
      first [by refine (Hfail _ _ _ H)|by refine (Hmove _ _ _ _ H)].
  - exfalso. destruct r as [mtime sz|e];
      [|injection H as H; symmetry in H; by refine (Hfail _ _ _ H)].
    destruct (mkdir_parents _ _ _) as [fs|e];
      [|injection H as H; symmetry in H; by refine (Hfail _ _ _ H)].
    destruct (String.eqb _ _); injection H as H; symmetry in H;
      [by refine (Hmove _ _ _ _ H)|by refine (Henter _ _ _ H)].
  - destruct r as [mtime sz|e];
      [|exfalso; injection H as H; symmetry in H; by refine (Hfail _ _ _ H)].
    destruct (Fs.is_dir _ _);
      [exfalso; injection H as H; symmetry in H; by refine (Hfail _ _ _ H)|].
    injection H as <-. exists lp. split; [done|]. simpl. apply is_file_written.
  - exfalso. destruct (st_downloaders s); [done|].
    injection H as H; symmetry in H. by refine (Henter _ _ _ H).
  - destruct r as [mtime sz|e];
      [|exfalso; injection H as H; symmetry in H; by refine (Hfail _ _ _ H)].
    simpl in H. destruct (Fs.is_dir _ _);
      [exfalso; injection H as H; symmetry in H; by refine (Hfail _ _ _ H)|].
    injection H as <-. exists lp. split; [done|]. simpl. apply is_file_written.
Qed.

Lemma cancel_done t : t_state (cancel t) = Done → t_state t = Done.
Proof. unfold cancel. by destruct (unfinished (t_state t)) eqn:E. Qed.

Lemma cancel_fields t :
  t_listed (cancel t) = t_listed t ∧ t_full (cancel t) = t_full t.
Proof. unfold cancel. by destruct (unfinished (t_state t)). Qed.

Lemma exec_main_fs lib cfg s s' :
  exec_main lib cfg s = Some s' → st_fs s' = st_fs s.
Proof.
  intros H.
  destruct (exec_main_cases _ _ _ _ H)
    as [(ops & n & Hm & _ & ->)|[(o & ops & Hm & _ & _ & ->)|
        [(d & ops & Hm & _ & ->)|(path & full & detail & ops & Hm)]]]; try done.
  rewrite (exec_main_filter _ _ _ _ _ _ _ Hm) in H. simpl in H.
  case_all; injection H as <-; done.
Qed.

(** The tasks after a step of [run]: those there were, some of them
    cancelled, and possibly a new one. *)
Lemma exec_main_tasks lib cfg s s' u :
  exec_main lib cfg s = Some s' → u ∈ st_tasks s' →
  t_state u = Done → ∃ u0, u0 ∈ st_tasks s ∧ t_state u0 = Done ∧
                            t_listed u0 = t_listed u ∧ t_full u0 = t_full u.
Proof.
  intros H Hu Hd.
  assert (Hsame : u ∈ st_tasks s → ∃ u0, u0 ∈ st_tasks s ∧ t_state u0 = Done ∧
                    t_listed u0 = t_listed u ∧ t_full u0 = t_full u) by eauto.
  assert (Hcancel : u ∈ map cancel (st_tasks s) →
                    ∃ u0, u0 ∈ st_tasks s ∧ t_state u0 = Done ∧
                          t_listed u0 = t_listed u ∧ t_full u0 = t_full u).
  { intros Hin. apply list_elem_of_fmap in Hin as (u0 & -> & Hin).
    exists u0. destruct (cancel_fields u0) as [-> ->].
    split; [done|]. split; [by apply cancel_done|done]. }
  assert (Hnew : ∀ t, u ∈ (st_tasks s ++ [t])%list → t_state t = Created →
                    ∃ u0, u0 ∈ st_tasks s ∧ t_state u0 = Done ∧
                          t_listed u0 = t_listed u ∧ t_full u0 = t_full u).
  { intros t Hin Ht. apply elem_of_app in Hin as [Hin|Hin]; [by apply Hsame|].
    apply list_elem_of_singleton in Hin as ->. by rewrite Ht in Hd. }
  destruct (exec_main_cases _ _ _ _ H)
    as [(ops & n & Hm & _ & ->)|[(o & ops & Hm & _ & _ & ->)|
        [(d & ops & Hm & _ & ->)|(path & full & detail & ops & Hm)]]].
  - by apply Hsame.
  - by apply Hsame.
  - by apply Hcancel.
  - rewrite (exec_main_filter _ _ _ _ _ _ _ Hm) in H. simpl in H.
    case_all; injection H as <-; simpl in Hu;
      first [by apply Hsame|by apply Hcancel|by eapply Hnew].
Qed.

Lemma files_of_done_step lib cfg l s s' :
  pipeline_inv cfg s →
  exec lib cfg l s = Some s' →
  (∀ t lp, t ∈ st_tasks s → t_state t = Done →
           get_local_path cfg (t_listed t) (t_full t) = Ok lp →
           Fs.is_file (st_fs s) lp = true) →
  ∀ t lp, t ∈ st_tasks s' → t_state t = Done →
          get_local_path cfg (t_listed t) (t_full t) = Ok lp →
          Fs.is_file (st_fs s') lp = true.
Proof.
  intros [Hok _] H Hinv u lp Hu Hd Hlp. rewrite Forall_forall in Hok.
  destruct l as [|i r|order]; simpl in H.
  - rewrite (exec_main_fs _ _ _ _ H).
    destruct (exec_main_tasks _ _ _ _ _ H Hu Hd) as (u0 & Hu0 & Hd0 & El & Ef).
    apply (Hinv u0); [done|done|]. by rewrite El, Ef.
  - destruct (exec_task_shape _ _ _ _ _ _ H)
      as (t & ops & Hm & Ht & _ & [(x & Hx & Hts & _)|(e & _ & Hts & _ & Hfs)]).
    + rewrite Hts in Hu. apply list_elem_of_lookup_1 in Hu as [j Hj].
      destruct (decide (j = i)) as [->|Hji].
      * assert (Hi : (i < length (st_tasks s))%nat) by by eapply lookup_lt_Some.
        rewrite list_lookup_insert_eq in Hj by done. injection Hj as <-.
        simpl in Hd, Hlp.
        assert (Ht' : st_tasks s' !! i = Some (set_tstate x t)).
        { rewrite Hts. by rewrite list_lookup_insert_eq. }
        destruct (exec_task_done _ _ _ _ _ _ _ _ H Ht Ht' Hd) as (lp0 & Hw & Hf).
        destruct (Hok t (list_elem_of_lookup_2 _ _ _ Ht)) as (lp1 & H1 & _ & _ & H4 & _).
        rewrite Hlp in H1. injection H1 as <-. by rewrite <- (H4 _ Hw).
      * rewrite list_lookup_insert_ne in Hj by done.
        eapply exec_task_files; [exact H|].
        apply (Hinv u); [by eapply list_elem_of_lookup_2|done|done].
    + rewrite Hfs. rewrite Hts in Hu.
      apply list_elem_of_fmap in Hu as (u0 & -> & Hu0).
      apply cancel_done in Hd. destruct (cancel_fields u0) as [El Ef].
      rewrite El, Ef in Hlp.
      apply list_elem_of_lookup_1 in Hu0 as [j Hj].
      destruct (decide (j = i)) as [->|Hji].
      * assert (Hi : (i < length (st_tasks s))%nat) by by eapply lookup_lt_Some.
        rewrite list_lookup_insert_eq in Hj by done. injection Hj as <-. done.
      * rewrite list_lookup_insert_ne in Hj by done.
        apply (Hinv u0); [by eapply list_elem_of_lookup_2|done|done].
  - destruct (exec_finish_shape _ _ _ _ _ H) as (_ & _ & Hts & Hself & _).
    rewrite Hts in Hu. pose proof (Hinv u lp Hu Hd Hlp) as Hf.
    destruct (Hok u Hu) as (lp1 & H1 & _ & H3 & _).
    rewrite Hlp in H1. injection H1 as <-.
    unfold exec_finish in H.
    destruct (st_main s) as [|[|]| |]; try done.
    destruct (forallb _ _); [|done].
    destruct (sync_server cfg); [|injection H as <-; done].
    simpl in H. destruct (bool_decide _) eqn:Hit; [|done].
    apply bool_decide_eq_true in Hit.
    unfold cleanup_local_files in H.
    destruct (all_local_files cfg (st_fs s)) as [all|e] eqn:Hall;
      injection H as <-; [|done]. simpl.
    unfold Fs.is_file in *. destruct (st_fs s !! lp) as [n|] eqn:Hn; [|done].
    apply bool_decide_eq_true in Hf.
    rewrite (cleanup_loop_keeps lib cfg order (st_fs s) lp n); [by apply bool_decide_eq_true| |done|done].
    rewrite (iterates_deletion_set _ _ _ _ _ _ Hall Hit). tauto.
Qed.

(** X14: when a task has finished, the local path of its entry holds a
    file, from then on and to the end of [run]: the later tasks remove
    nothing, and the clean-up spares the path, which is in
    [processed_local_paths].  So when [run] returns, every entry the
    filter accepted has its file in the local tree. *)
Theorem X14_accepted_entries_have_their_file lib cfg fs remote s t :
  forallb detail_agrees (iter_path (source_dir cfg) remote) = true →
  reachable lib cfg (start cfg fs remote) s →
  t ∈ st_tasks s →
  t_state t = Done ∨ st_main s = Returned →
  ∃ lp, get_local_path cfg (t_listed t) (t_full t) = Ok lp ∧
        lp ∈ processed_local_paths (st_self s) ∧
        Fs.is_file (st_fs s) lp = true.
Proof.
  intros Hda Hr Ht Hd.
  assert (Hdone : t_state t = Done).
  { destruct Hd as [Hd|Hret]; [done|].
    pose proof (tasks_match_main_reachable _ _ _ _ _ Hr) as Hmm.
    unfold tasks_match_main in Hmm. rewrite Hret in Hmm.
    rewrite Forall_forall in Hmm. by apply Hmm. }
  clear Hd.
  destruct (pipeline_inv_reachable _ _ _ _ _ Hda Hr) as [Hts _].
  rewrite Forall_forall in Hts.
  destruct (Hts t Ht) as (lp & H1 & _ & H3 & _).
  exists lp. split; [done|]. split; [done|].
  assert (Hboth : pipeline_inv cfg s ∧
            ∀ t lp, t ∈ st_tasks s → t_state t = Done →
                    get_local_path cfg (t_listed t) (t_full t) = Ok lp →
                    Fs.is_file (st_fs s) lp = true).
  { clear -Hda Hr. revert s Hr.
    apply (reachable_ind lib cfg _
             (fun s => pipeline_inv cfg s ∧
                ∀ t lp, t ∈ st_tasks s → t_state t = Done →
                        get_local_path cfg (t_listed t) (t_full t) = Ok lp →
                        Fs.is_file (st_fs s) lp = true)).
    - split.
      + apply (pipeline_inv_reachable lib cfg fs remote); [done|]. by exists [].
      + intros t lp Ht. by apply elem_of_nil in Ht.
    - intros l s1 s2 [Hp Hf] Hex. split.
      + by eapply pipeline_inv_step.
      + by eapply files_of_done_step. }
  destruct Hboth as [_ Hf]. by apply (Hf t lp).
Qed.

Lemma X14_witness :
  ∃ lp, get_local_path Scenario.cfg0
          (Scenario.entry "a.srt" "2024-01-01T00:00:00") "/media/a.srt" = Ok lp ∧
        lp ∈ processed_local_paths (st_self ModeScenario.one_done) ∧
        Fs.is_file (st_fs ModeScenario.one_done) lp = true.
Proof.
  apply (X14_accepted_entries_have_their_file Scenario.lib0 Scenario.cfg0
           Scenario.fs_empty (Scenario.remote2 "a.srt" "b.mp4") ModeScenario.one_done
           {| t_path := Scenario.entry "a.srt" "2024-01-01T00:00:00";
              t_listed := Scenario.entry "a.srt" "2024-01-01T00:00:00";
              t_full := "/media/a.srt";
              t_state := Done |}).
  - reflexivity.
  - exists ModeScenario.first_downloaded. vm_compute. reflexivity.
  - apply list_elem_of_here.
  - by left.
Defined.
